(** * VV10 non-local correlation: kernel, pair integration, potential matrix

    A shallow embedding of the code cells of
    [Tutorials/04_Density_Functional_Theory/4d_VV10.ipynb]: the static
    coefficients, [compute_vv10_kernel] and [compute_vv10].

    The program is written once, over an interface [Arith] of the scalar
    operations the notebook uses.  Two instances are given:
    - [exact]: the real numbers, that is the arithmetic the formulas of the
      notebook are written in;
    - [binary64]: IEEE 754 double precision (the [spec_float] model of the
      Standard Library), total like numpy's array operations, with signed
      zeros, infinities and NaN.

    numpy arrays are lists (one axis) and lists of rows (two axes).
    [compute_vv10] is given twice: as a function of the values of its
    arguments, and with the array objects and the tables of [points_func] in
    a store; the second is proved to compute what the first computes. *)

From Stdlib Require Import Reals Lra Lia ZArith QArith Qreals List Permutation.
From Stdlib Require Import Floats.SpecFloat.
From stdpp Require Import base list gmap.

Set Default Proof Using "Type".

(** ** Scalars *)

Class Arith (T : Type) := {
  lit : Q -> T;          (* a decimal literal of the source, [lit 0.0093] *)
  np_pi : T;             (* np.pi *)
  add : T -> T -> T;
  sub : T -> T -> T;
  mul : T -> T -> T;
  div : T -> T -> T;
  neg : T -> T;
  np_sqrt : T -> T;      (* np.sqrt *)
  pow : T -> T -> T      (* x ** y and np.power(x, y) *)
}.

Declare Scope arith_scope.
Delimit Scope arith_scope with A.
Infix "+" := add : arith_scope.
Infix "-" := sub : arith_scope.
Infix "*" := mul : arith_scope.
Infix "/" := div : arith_scope.
Notation "- x" := (neg x) : arith_scope.
Infix "**" := pow (at level 30, right associativity) : arith_scope.

(** *** Exact arithmetic

    [x ** y] over the reals: [exp (y * ln x)] for a positive base; for a base
    that is zero or negative, the integer power when the exponent is a natural
    number, and [0] otherwise (this covers [0 ** y = 0] for [y > 0]; where
    numpy answers NaN or Inf there is no real number to return).  Division by
    zero and the square root of a negative number are the total functions of
    the Standard Library ([x / 0 = 0], [sqrt x = 0] for [x < 0]). *)

Definition Rnp_pow (x y : R) : R :=
  if Rlt_dec 0 x then Rpower x y
  else
    let n := Z.to_nat (Int_part y) in
    if Req_dec_T y (INR n) then (x ^ n)%R else 0%R.

#[export] Instance exact : Arith R := {|
  lit := Q2R;
  np_pi := PI;
  add := Rplus;
  sub := Rminus;
  mul := Rmult;
  div := Rdiv;
  neg := Ropp;
  np_sqrt := sqrt;
  pow := Rnp_pow
|}.

(** *** IEEE 754 binary64

    Every operation is the correctly rounded one of [SpecFloat] with 53 bits
    of precision.  A decimal literal [m / 10^k] is the correctly rounded
    quotient of two integers that binary64 represents exactly, which is the
    double the Python parser produces.  [pow] is not an IEEE operation: the
    C library's function is a parameter, except for the exponent [2.0], where
    numpy squares the base. *)

Definition b64_prec : Z := 53.
Definition b64_emax : Z := 1024.

Definition b64_of_Z (n : Z) : spec_float :=
  binary_normalize b64_prec b64_emax n 0 false.

Definition b64_lit (q : Q) : spec_float :=
  SFdiv b64_prec b64_emax (b64_of_Z (Qnum q)) (b64_of_Z (Zpos (Qden q))).

(* 3.141592653589793 = 0x400921FB54442D18 *)
Definition b64_pi : spec_float := S754_finite false 7074237752028440 (-51).

Definition b64_pow (libm_pow : spec_float -> spec_float -> spec_float)
    (x y : spec_float) : spec_float :=
  if SFeqb y (b64_of_Z 2) then SFmul b64_prec b64_emax x x else libm_pow x y.

Definition binary64 (libm_pow : spec_float -> spec_float -> spec_float)
    : Arith spec_float := {|
  lit := b64_lit;
  np_pi := b64_pi;
  add := SFadd b64_prec b64_emax;
  sub := SFsub b64_prec b64_emax;
  mul := SFmul b64_prec b64_emax;
  div := SFdiv b64_prec b64_emax;
  neg := SFopp;
  np_sqrt := SFsqrt b64_prec b64_emax;
  pow := b64_pow libm_pow
|}.

Definition b64_is_inf_or_nan (f : spec_float) : bool :=
  match f with
  | S754_infinity _ | S754_nan => true
  | _ => false
  end.

(** ** The program *)

Section Program.
Context {T : Type} `{Arith T}.
Local Open Scope arith_scope.

(** *** numpy array operations

    [amap f a] applies a scalar operation to every element (an array with a
    Python scalar); [amap2 f a b] combines two arrays of one shape.  numpy
    raises [ValueError] when the shapes of the operands of an element-wise
    operation do not fit; the grid gives all arrays of a block the same
    number of points, and the theorems state what they need of it. *)

Local Abbreviation vec := (list T).
Local Abbreviation mat := (list (list T)).

Definition amap (f : T -> T) (a : vec) : vec := f <$> a.
Definition amap2 (f : T -> T -> T) (a b : vec) : vec := zip_with f a b.

Definition mmap (f : T -> T) (A : mat) : mat := amap f <$> A.
Definition mmap2 (f : T -> T -> T) (A B : mat) : mat := zip_with (amap2 f) A B.

(* a[:, None] op b : shapes (n,1) and (m,) give (n,m) *)
Definition outer (f : T -> T -> T) (a b : vec) : mat :=
  (fun ai => amap (f ai) b) <$> a.
(* a[:, None] op B : shapes (n,1) and (n,m) *)
Definition col_op (f : T -> T -> T) (a : vec) (B : mat) : mat :=
  zip_with (fun ai row => amap (f ai) row) a B.
(* A op b[:, None] : shapes (n,m) and (n,1) *)
Definition op_col (f : T -> T -> T) (A : mat) (b : vec) : mat :=
  zip_with (fun row bi => amap (fun e => f e bi) row) A b.
(* a op B : shapes (m,) and (n,m) *)
Definition row_op (f : T -> T -> T) (a : vec) (B : mat) : mat :=
  (fun row => amap2 f a row) <$> B.
(* A op b : shapes (n,m) and (m,) *)
Definition op_row (f : T -> T -> T) (A : mat) (b : vec) : mat :=
  (fun row => amap2 f row b) <$> A.

(* np.sum; in exact arithmetic the order of the additions is immaterial *)
Definition np_sum (a : vec) : T := foldr add (lit 0) a.
(* np.sum(A, axis=1) *)
Definition np_sum_axis1 (A : mat) : vec := np_sum <$> A.
(* np.vdot on real arrays *)
Definition np_vdot (a b : vec) : T := np_sum (amap2 mul a b).
(* np.zeros_like(a), np.zeros((n, m)) *)
Definition np_zeros_like (a : vec) : vec := (fun _ => lit 0) <$> a.
Definition np_zeros (n m : nat) : mat := replicate n (replicate m (lit 0)).

(** *** VV10 coefficients *)

Definition coef_C : T := lit 0.0093.
Definition coef_B : T := lit 5.9.
Definition coef_beta : T :=
  lit 1.0 / lit 32.0 * (lit 3.0 / (coef_B ** lit 2.0)) ** (lit 3.0 / lit 4.0).

(** *** VV10 kernel *)

Definition compute_vv10_kernel (rho gamma : vec) : vec * vec :=
  let kappa_pref :=
    coef_B * (lit 1.5 * np_pi) / ((lit 9.0 * np_pi) ** (lit 1.0 / lit 6.0)) in
  let Wp := amap (mul ((lit 4.0 / lit 3.0) * np_pi)) rho in
  let Wg :=
    amap (mul coef_C)
      (amap (fun q => q ** lit 2.0) (amap2 div gamma (amap2 mul rho rho))) in
  let W0 := amap np_sqrt (amap2 add Wg Wp) in
  let kappa :=
    amap (fun p => p * kappa_pref) (amap (fun r => r ** (lit 1.0 / lit 6.0)) rho) in
  (W0, kappa).

(** *** The collaborators of [compute_vv10]

    A block of the quadrature grid ([Vpot.get_block(i)]), the tables that
    [points_func] holds after [compute_points(block)], and the dictionary
    that [superfunc.compute_functional] returns.  The tables have room for
    the largest block; the code slices them to the block's extent. *)

Record BlockOPoints := {
  grid_w : vec;
  grid_x : vec;
  grid_y : vec;
  grid_z : vec;
  functions_local_to_global : list nat
}.

Record PointValues := {
  RHO_A : vec;
  GAMMA_AA : vec;
  RHO_AX : vec;
  RHO_AY : vec;
  RHO_AZ : vec
}.

Record BasisValues := {
  PHI : mat;
  PHI_X : mat;
  PHI_Y : mat;
  PHI_Z : mat
}.

Record FunctionalValues := {
  V : vec;
  V_RHO_A : vec;
  V_GAMMA_AA : vec
}.

Record VBase := {
  blocks : list BlockOPoints;                      (* nblocks(), get_block(i) *)
  point_values : BlockOPoints -> PointValues;      (* after compute_points *)
  basis_values : BlockOPoints -> BasisValues;      (* after compute_points *)
  compute_functional : PointValues -> FunctionalValues
}.

(** *** The pair kernel of an outer block [l] and an inner block [r] *)

Definition square (d : T) : T := d ** lit 2.

(* R2 = (l_x[:, None] - r_x) ** 2; R2 += (l_y ...) ** 2; R2 += (l_z ...) ** 2 *)
Definition distance_matrix (l_x l_y l_z r_x r_y r_z : vec) : mat :=
  let R2 := mmap square (outer sub l_x r_x) in
  let R2 := mmap2 add R2 (mmap square (outer sub l_y r_y)) in
  let R2 := mmap2 add R2 (mmap square (outer sub l_z r_z)) in
  R2.

(* g = l_W0[:, None] * R2 + l_kappa[:, None] *)
Definition build_g (l_W0 l_kappa : vec) (R2 : mat) : mat :=
  op_col add (col_op mul l_W0 R2) l_kappa.

(* gp = r_W0 * R2 + r_kappa *)
Definition build_gp (r_W0 r_kappa : vec) (R2 : mat) : mat :=
  op_row add (row_op mul r_W0 R2) r_kappa.

(* F_kernal = -1.5 * r_w * r_rho / (g * gp * (g + gp)) *)
Definition build_F_kernal (r_w r_rho : vec) (g gp : mat) : mat :=
  row_op div (amap2 mul (amap (mul (- lit 1.5)) r_w) r_rho)
    (mmap2 mul (mmap2 mul g gp) (mmap2 add g gp)).

(* F_U = F_kernal * ((1.0 / g) + (1.0 / (g + gp))) *)
Definition build_F_U (F_kernal g gp : mat) : mat :=
  mmap2 mul F_kernal
    (mmap2 add (mmap (div (lit 1.0)) g) (mmap (div (lit 1.0)) (mmap2 add g gp))).

(* F_W = F_U * R2 *)
Definition build_F_W (F_U R2 : mat) : mat := mmap2 mul F_U R2.

(* the body of the inner loop after the inner block's data is in place:
   phi_kernel += np.sum(F_kernal, axis=1); phi_U += -np.sum(F_U, axis=1);
   phi_W += -np.sum(F_W, axis=1) *)
Definition pair_kernel
    (l_x l_y l_z l_W0 l_kappa : vec)
    (r_x r_y r_z r_w r_rho r_W0 r_kappa : vec)
    (phi : vec * vec * vec) : vec * vec * vec :=
  let '(phi_kernel, phi_U, phi_W) := phi in
  let R2 := distance_matrix l_x l_y l_z r_x r_y r_z in
  let g := build_g l_W0 l_kappa R2 in
  let gp := build_gp r_W0 r_kappa R2 in
  let F_kernal := build_F_kernal r_w r_rho g gp in
  let F_U := build_F_U F_kernal g gp in
  let F_W := build_F_W F_U R2 in
  let phi_kernel := amap2 add phi_kernel (np_sum_axis1 F_kernal) in
  let phi_U := amap2 add phi_U (amap neg (np_sum_axis1 F_U)) in
  let phi_W := amap2 add phi_W (amap neg (np_sum_axis1 F_W)) in
  (phi_kernel, phi_U, phi_W).

(* one iteration of "for r_block in range(Vpot.nblocks())" *)
Definition inner_block (Vpot : VBase) (l_x l_y l_z l_W0 l_kappa : vec)
    (phi : vec * vec * vec) (r_grid : BlockOPoints) : vec * vec * vec :=
  let r_w := grid_w r_grid in
  let r_x := grid_x r_grid in
  let r_y := grid_y r_grid in
  let r_z := grid_z r_grid in
  let r_npoints := length r_w in
  let r_rho := take r_npoints (RHO_A (point_values Vpot r_grid)) in
  let r_gamma := take r_npoints (GAMMA_AA (point_values Vpot r_grid)) in
  let '(r_W0, r_kappa) := compute_vv10_kernel r_rho r_gamma in
  pair_kernel l_x l_y l_z l_W0 l_kappa r_x r_y r_z r_w r_rho r_W0 r_kappa phi.

(** *** The derivatives of the kernel parameters and the perturbation *)

(* kappa_dn = l_kappa / (6.0 * l_rho) *)
Definition build_kappa_dn (l_kappa l_rho : vec) : vec :=
  amap2 div l_kappa (amap (mul (lit 6.0)) l_rho).

(* w0_dgamma = coef_C * l_gamma / (l_W0 * l_rho ** 4.0) *)
Definition build_w0_dgamma (l_gamma l_W0 l_rho : vec) : vec :=
  amap2 div (amap (mul coef_C) l_gamma)
    (amap2 mul l_W0 (amap (fun r => r ** lit 4.0) l_rho)).

(* w0_drho = 2.0 / l_W0 * (np.pi/3.0 - coef_C * np.power(l_gamma, 2.0) / (l_rho ** 5.0)) *)
Definition build_w0_drho (l_gamma l_W0 l_rho : vec) : vec :=
  amap2 mul (amap (div (lit 2.0)) l_W0)
    (amap (sub (np_pi / lit 3.0))
       (amap2 div (amap (mul coef_C) (amap (fun g => g ** lit 2.0) l_gamma))
          (amap (fun r => r ** lit 5.0) l_rho))).

(* np.sum(l_w * l_rho * (coef_beta + 0.5 * phi_kernel)) *)
Definition block_vv10_e (l_w l_rho phi_kernel : vec) : T :=
  np_sum (amap2 mul (amap2 mul l_w l_rho)
            (amap (add coef_beta) (amap (mul (lit 0.5)) phi_kernel))).

(* v_rho += coef_beta + phi_kernel + l_rho * (kappa_dn * phi_U + w0_drho * phi_W)
   v_rho *= 0.5
   v_gamma += l_rho * w0_dgamma * phi_W *)
Definition perturb_derivatives
    (l_rho l_gamma l_W0 l_kappa phi_kernel phi_U phi_W v_rho v_gamma : vec)
    : vec * vec :=
  let kappa_dn := build_kappa_dn l_kappa l_rho in
  let w0_dgamma := build_w0_dgamma l_gamma l_W0 l_rho in
  let w0_drho := build_w0_drho l_gamma l_W0 l_rho in
  let v_rho :=
    amap2 add v_rho
      (amap2 add (amap (add coef_beta) phi_kernel)
         (amap2 mul l_rho
            (amap2 add (amap2 mul kappa_dn phi_U) (amap2 mul w0_drho phi_W)))) in
  let v_rho := amap (fun v => v * lit 0.5) v_rho in
  let v_gamma := amap2 add v_gamma (amap2 mul (amap2 mul l_rho w0_dgamma) phi_W) in
  (v_rho, v_gamma).

(** *** The projection on the basis functions *)

(* A[:n, :m] *)
Definition slice2 (n m : nat) (A : mat) : mat := take m <$> take n A.

(* np.einsum('pb,p,p,pa->ab', A, u, v, B); [na] and [nb] are the extents of
   the second axes of B and A *)
Definition einsum_pb_p_p_pa (na nb : nat) (A : mat) (u v : vec) (B : mat) : mat :=
  (fun a =>
     (fun b =>
        np_sum
          (zip_with
             (fun Au vB => nth b Au.1 (lit 0) * Au.2 * vB.1 * nth a vB.2 (lit 0))
             (zip A u) (zip v B)))
     <$> seq 0 nb)
  <$> seq 0 na.

Definition getitem (A : mat) (i j : nat) : T := nth j (nth i A []) (lit 0).

(* A.T *)
Definition np_transpose (A : mat) : mat :=
  (fun j => (fun row => nth j row (lit 0)) <$> A) <$> seq 0 (length (hd [] A)).

(** *** Summing back into the potential matrix

    [Varr[(lpos[:, None], lpos)] += S] reads the entries at the product of
    the index list with itself, adds [S], and stores the sums back at the
    same places.  The stores are written row by row; numpy leaves their order
    open, and it matters only when an index occurs twice in [lpos], which a
    local-to-global map of basis functions does not do.  An index outside the
    matrix raises [IndexError]. *)

Definition setitem (A : mat) (i j : nat) (v : T) : mat :=
  alter (fun row => <[j := v]> row) i A.

Definition getitem_product (A : mat) (lpos : list nat) : mat :=
  (fun p => (fun q => getitem A p q) <$> lpos) <$> lpos.

Definition setitem_product (A : mat) (lpos : list nat) (G : mat) : mat :=
  foldl
    (fun A pr => foldl (fun A qv => setitem A pr.1 qv.1 qv.2) A (zip lpos pr.2))
    A (zip lpos G).

Definition iadd_product (Varr : mat) (lpos : list nat) (S : mat) : option mat :=
  if forallb (fun p => p <? length Varr)%nat lpos
  then Some (setitem_product Varr lpos (mmap2 add (getitem_product Varr lpos) S))
  else None.

(** *** compute_vv10 *)

(* one iteration of "for l_block in range(Vpot.nblocks())" *)
Definition outer_block (Vpot : VBase) (st : T * T * mat) (l_grid : BlockOPoints)
    : option (T * T * mat) :=
  let '(xc_e, vv10_e, Varr) := st in
  let l_w := grid_w l_grid in
  let l_x := grid_x l_grid in
  let l_y := grid_y l_grid in
  let l_z := grid_z l_grid in
  let l_npoints := length l_w in
  let ret := compute_functional Vpot (point_values Vpot l_grid) in
  let xc_e := xc_e + np_vdot l_w (take l_npoints (V ret)) in
  let v_rho := take l_npoints (V_RHO_A ret) in
  let v_gamma := take l_npoints (V_GAMMA_AA ret) in
  let l_rho := take l_npoints (RHO_A (point_values Vpot l_grid)) in
  let l_gamma := take l_npoints (GAMMA_AA (point_values Vpot l_grid)) in
  let '(l_W0, l_kappa) := compute_vv10_kernel l_rho l_gamma in
  let phi_kernel := np_zeros_like l_rho in
  let phi_U := np_zeros_like l_rho in
  let phi_W := np_zeros_like l_rho in
  let '(phi_kernel, phi_U, phi_W) :=
    foldl (inner_block Vpot l_x l_y l_z l_W0 l_kappa)
      (phi_kernel, phi_U, phi_W) (blocks Vpot) in
  let vv10_e := vv10_e + block_vv10_e l_w l_rho phi_kernel in
  let '(v_rho, v_gamma) :=
    perturb_derivatives l_rho l_gamma l_W0 l_kappa phi_kernel phi_U phi_W
      v_rho v_gamma in
  let lpos := functions_local_to_global l_grid in
  let nfunctions := length lpos in
  let phi := slice2 l_npoints nfunctions (PHI (basis_values Vpot l_grid)) in
  let phi_x := slice2 l_npoints nfunctions (PHI_X (basis_values Vpot l_grid)) in
  let phi_y := slice2 l_npoints nfunctions (PHI_Y (basis_values Vpot l_grid)) in
  let phi_z := slice2 l_npoints nfunctions (PHI_Z (basis_values Vpot l_grid)) in
  let Vtmp := einsum_pb_p_p_pa nfunctions nfunctions phi v_rho l_w phi in
  let l_rho_x := take l_npoints (RHO_AX (point_values Vpot l_grid)) in
  let l_rho_y := take l_npoints (RHO_AY (point_values Vpot l_grid)) in
  let l_rho_z := take l_npoints (RHO_AZ (point_values Vpot l_grid)) in
  let tmp_grid := amap2 mul (amap (mul (lit 2.0)) l_w) v_gamma in
  let Vtmp :=
    mmap2 add Vtmp (einsum_pb_p_p_pa nfunctions nfunctions phi tmp_grid l_rho_x phi_x) in
  let Vtmp :=
    mmap2 add Vtmp (einsum_pb_p_p_pa nfunctions nfunctions phi tmp_grid l_rho_y phi_y) in
  let Vtmp :=
    mmap2 add Vtmp (einsum_pb_p_p_pa nfunctions nfunctions phi tmp_grid l_rho_z phi_z) in
  Varr ← iadd_product Varr lpos (mmap2 add Vtmp (np_transpose Vtmp));
  Some (xc_e, vv10_e, Varr).

(* the loop over the outer blocks: (xc_e, vv10_e, Varr) when it is left *)
Definition outer_loop (D : mat) (Vpot : VBase) : option (T * T * mat) :=
  let nbf := length D in
  let Varr := np_zeros nbf nbf in
  let total_e := lit 0.0 in
  let tD := mmap (mul (lit 2.0)) D in
  let xc_e := lit 0.0 in
  let vv10_e := lit 0.0 in
  foldl (fun st l_grid => st ≫= fun st => outer_block Vpot st l_grid)
    (Some (xc_e, vv10_e, Varr)) (blocks Vpot).

Definition compute_vv10 (D : mat) (Vpot : VBase) : option (T * mat) :=
  '(xc_e, vv10_e, Varr) ← outer_loop D Vpot;
  let xc_e := xc_e + vv10_e in
  Some (xc_e, Varr).

(** *** The quantities of one outer block

    What [outer_block] binds to [l_rho], [l_gamma], to the accumulators when
    the inner loop is left, to the two energy increments and to
    [Vtmp + Vtmp.T], as functions of the block. *)

Definition block_rho (Vpot : VBase) (l_grid : BlockOPoints) : vec :=
  take (length (grid_w l_grid)) (RHO_A (point_values Vpot l_grid)).

Definition block_gamma (Vpot : VBase) (l_grid : BlockOPoints) : vec :=
  take (length (grid_w l_grid)) (GAMMA_AA (point_values Vpot l_grid)).

Definition block_phi (Vpot : VBase) (l_grid : BlockOPoints) : vec * vec * vec :=
  let l_rho := block_rho Vpot l_grid in
  let '(l_W0, l_kappa) := compute_vv10_kernel l_rho (block_gamma Vpot l_grid) in
  foldl
    (inner_block Vpot (grid_x l_grid) (grid_y l_grid) (grid_z l_grid) l_W0 l_kappa)
    (np_zeros_like l_rho, np_zeros_like l_rho, np_zeros_like l_rho)
    (blocks Vpot).

Definition block_xc_e (Vpot : VBase) (l_grid : BlockOPoints) : T :=
  let l_w := grid_w l_grid in
  np_vdot l_w
    (take (length l_w) (V (compute_functional Vpot (point_values Vpot l_grid)))).

Definition block_nl_e (Vpot : VBase) (l_grid : BlockOPoints) : T :=
  block_vv10_e (grid_w l_grid) (block_rho Vpot l_grid) (block_phi Vpot l_grid).1.1.

Definition block_Vtmp (Vpot : VBase) (l_grid : BlockOPoints) : mat :=
  let l_w := grid_w l_grid in
  let l_npoints := length l_w in
  let ret := compute_functional Vpot (point_values Vpot l_grid) in
  let l_rho := block_rho Vpot l_grid in
  let l_gamma := block_gamma Vpot l_grid in
  let '(l_W0, l_kappa) := compute_vv10_kernel l_rho l_gamma in
  let '(phi_kernel, phi_U, phi_W) := block_phi Vpot l_grid in
  let '(v_rho, v_gamma) :=
    perturb_derivatives l_rho l_gamma l_W0 l_kappa phi_kernel phi_U phi_W
      (take l_npoints (V_RHO_A ret)) (take l_npoints (V_GAMMA_AA ret)) in
  let nfunctions := length (functions_local_to_global l_grid) in
  let phi := slice2 l_npoints nfunctions (PHI (basis_values Vpot l_grid)) in
  let phi_x := slice2 l_npoints nfunctions (PHI_X (basis_values Vpot l_grid)) in
  let phi_y := slice2 l_npoints nfunctions (PHI_Y (basis_values Vpot l_grid)) in
  let phi_z := slice2 l_npoints nfunctions (PHI_Z (basis_values Vpot l_grid)) in
  let tmp_grid := amap2 mul (amap (mul (lit 2.0)) l_w) v_gamma in
  let l_rho_x := take l_npoints (RHO_AX (point_values Vpot l_grid)) in
  let l_rho_y := take l_npoints (RHO_AY (point_values Vpot l_grid)) in
  let l_rho_z := take l_npoints (RHO_AZ (point_values Vpot l_grid)) in
  mmap2 add
    (mmap2 add
       (mmap2 add (einsum_pb_p_p_pa nfunctions nfunctions phi v_rho l_w phi)
          (einsum_pb_p_p_pa nfunctions nfunctions phi tmp_grid l_rho_x phi_x))
       (einsum_pb_p_p_pa nfunctions nfunctions phi tmp_grid l_rho_y phi_y))
    (einsum_pb_p_p_pa nfunctions nfunctions phi tmp_grid l_rho_z phi_z).

(* Vtmp + Vtmp.T *)
Definition block_Vsym (Vpot : VBase) (l_grid : BlockOPoints) : mat :=
  mmap2 add (block_Vtmp Vpot l_grid) (np_transpose (block_Vtmp Vpot l_grid)).

(* the potential matrix after the blocks [bs], from [Varr] *)
Definition sum_back (Vpot : VBase) (Varr : mat) (bs : list BlockOPoints)
    : option mat :=
  foldl
    (fun M l_grid =>
       M ≫= fun M =>
         iadd_product M (functions_local_to_global l_grid) (block_Vsym Vpot l_grid))
    (Some Varr) bs.

(* the same grid and functional, the blocks enumerated as [bs] *)
Definition with_blocks (Vpot : VBase) (bs : list BlockOPoints) : VBase :=
  {| blocks := bs;
     point_values := point_values Vpot;
     basis_values := basis_values Vpot;
     compute_functional := compute_functional Vpot |}.

(* the shape of the data of a block: every coordinate array has one entry
   per point, and the tables have room for the points of the block *)
Definition block_shape (Vpot : VBase) (b : BlockOPoints) : Prop :=
  let n := length (grid_w b) in
  length (grid_x b) = n /\ length (grid_y b) = n /\ length (grid_z b) = n /\
  (n <= length (RHO_A (point_values Vpot b)))%nat /\
  (n <= length (GAMMA_AA (point_values Vpot b)))%nat /\
  (n <= length (V (compute_functional Vpot (point_values Vpot b))))%nat.

End Program.

Arguments BlockOPoints : clear implicits.
Arguments PointValues : clear implicits.
Arguments BasisValues : clear implicits.
Arguments FunctionalValues : clear implicits.
Arguments VBase : clear implicits.

Abbreviation vec T := (list T).
Abbreviation mat T := (list (list T)).

(** ** The objects of a call

    [compute_vv10] above is a function of the values.  The Python function
    receives references: [D] is an array object that the caller keeps, and
    [points_func] keeps tables that every [compute_points] overwrites.  The
    definitions below follow the same statements with these two effects
    explicit: a store of the array objects that outlive a statement and can
    be reached from outside ([D], [tD], [Varr]), addressed by identity, and
    the current tables of [points_func].  [np.array(..)], [np.zeros(..)] and
    arithmetic make new objects; the block-local arrays ([v_rho], [phi_U],
    [R2], ...) are such new objects of which no second reference exists, and
    their in-place updates are written as rebinding, as above.  A read of an
    identity that the store does not hold, and an [IndexError], end the call
    ([None]). *)

Section Objects.
Context {T : Type} `{Arith T}.
Local Open Scope arith_scope.

Record PyState := {
  arrays : gmap positive (mat T);
  tables : PointValues T * BasisValues T
}.

Definition Py (A : Type) : Type := PyState -> option (A * PyState).

Definition py_ret {A : Type} (a : A) : Py A := fun s => Some (a, s).

Definition py_bind {A B : Type} (k : A -> Py B) (m : Py A) : Py B :=
  fun s =>
    match m s with
    | Some (a, s') => k a s'
    | None => None
    end.

Definition py_raise {A : Type} : Py A := fun _ => None.

#[export] Instance Py_ret : MRet Py := @py_ret.
#[export] Instance Py_bind : MBind Py := @py_bind.

(* a new array object *)
Definition new_array (M : mat T) : Py positive :=
  fun s =>
    let l := fresh (dom (arrays s)) in
    Some (l, {| arrays := <[l := M]> (arrays s); tables := tables s |}).

Definition read_array (l : positive) : Py (mat T) :=
  fun s =>
    match arrays s !! l with
    | Some M => Some (M, s)
    | None => None
    end.

(* an assignment into the array object [l] *)
Definition write_array (l : positive) (M : mat T) : Py unit :=
  fun s =>
    match arrays s !! l with
    | Some _ => Some (tt, {| arrays := <[l := M]> (arrays s); tables := tables s |})
    | None => None
    end.

(* points_func.compute_points(grid) *)
Definition py_compute_points (Vpot : VBase T) (grid : BlockOPoints T) : Py unit :=
  fun s =>
    Some (tt, {| arrays := arrays s;
                 tables := (point_values Vpot grid, basis_values Vpot grid) |}).

(* points_func.point_values(), points_func.basis_values() *)
Definition py_point_values : Py (PointValues T) := fun s => Some ((tables s).1, s).
Definition py_basis_values : Py (BasisValues T) := fun s => Some ((tables s).2, s).

(* for b in bs: a = f(a, b) *)
Fixpoint py_for {A B : Type} (f : A -> B -> Py A) (a : A) (bs : list B) : Py A :=
  match bs with
  | [] => mret a
  | b :: bs => a ← f a b; py_for f a bs
  end.

Definition py_inner_block (Vpot : VBase T) (l_x l_y l_z l_W0 l_kappa : vec T)
    (phi : vec T * vec T * vec T) (r_grid : BlockOPoints T)
    : Py (vec T * vec T * vec T) :=
  let r_w := grid_w r_grid in
  let r_x := grid_x r_grid in
  let r_y := grid_y r_grid in
  let r_z := grid_z r_grid in
  let r_npoints := length r_w in
  py_compute_points Vpot r_grid;;
  pv ← py_point_values;
  let r_rho := take r_npoints (RHO_A pv) in
  pv ← py_point_values;
  let r_gamma := take r_npoints (GAMMA_AA pv) in
  let '(r_W0, r_kappa) := compute_vv10_kernel r_rho r_gamma in
  mret (pair_kernel l_x l_y l_z l_W0 l_kappa r_x r_y r_z r_w r_rho r_W0 r_kappa phi).

Definition py_outer_block (Vpot : VBase T) (Varr : positive) (st : T * T)
    (l_grid : BlockOPoints T) : Py (T * T) :=
  let '(xc_e, vv10_e) := st in
  let l_w := grid_w l_grid in
  let l_x := grid_x l_grid in
  let l_y := grid_y l_grid in
  let l_z := grid_z l_grid in
  let l_npoints := length l_w in
  py_compute_points Vpot l_grid;;
  pv ← py_point_values;
  let ret := compute_functional Vpot pv in
  let xc_e := xc_e + np_vdot l_w (take l_npoints (V ret)) in
  let v_rho := take l_npoints (V_RHO_A ret) in
  let v_gamma := take l_npoints (V_GAMMA_AA ret) in
  pv ← py_point_values;
  let l_rho := take l_npoints (RHO_A pv) in
  pv ← py_point_values;
  let l_gamma := take l_npoints (GAMMA_AA pv) in
  let '(l_W0, l_kappa) := compute_vv10_kernel l_rho l_gamma in
  let phi_kernel := np_zeros_like l_rho in
  let phi_U := np_zeros_like l_rho in
  let phi_W := np_zeros_like l_rho in
  '(phi_kernel, phi_U, phi_W) ←
    py_for (py_inner_block Vpot l_x l_y l_z l_W0 l_kappa)
      (phi_kernel, phi_U, phi_W) (blocks Vpot);
  let vv10_e := vv10_e + block_vv10_e l_w l_rho phi_kernel in
  let '(v_rho, v_gamma) :=
    perturb_derivatives l_rho l_gamma l_W0 l_kappa phi_kernel phi_U phi_W
      v_rho v_gamma in
  let lpos := functions_local_to_global l_grid in
  py_compute_points Vpot l_grid;;
  let nfunctions := length lpos in
  bv ← py_basis_values;
  let phi := slice2 l_npoints nfunctions (PHI bv) in
  bv ← py_basis_values;
  let phi_x := slice2 l_npoints nfunctions (PHI_X bv) in
  bv ← py_basis_values;
  let phi_y := slice2 l_npoints nfunctions (PHI_Y bv) in
  bv ← py_basis_values;
  let phi_z := slice2 l_npoints nfunctions (PHI_Z bv) in
  let Vtmp := einsum_pb_p_p_pa nfunctions nfunctions phi v_rho l_w phi in
  pv ← py_point_values;
  let l_rho_x := take l_npoints (RHO_AX pv) in
  pv ← py_point_values;
  let l_rho_y := take l_npoints (RHO_AY pv) in
  pv ← py_point_values;
  let l_rho_z := take l_npoints (RHO_AZ pv) in
  let tmp_grid := amap2 mul (amap (mul (lit 2.0)) l_w) v_gamma in
  let Vtmp :=
    mmap2 add Vtmp (einsum_pb_p_p_pa nfunctions nfunctions phi tmp_grid l_rho_x phi_x) in
  let Vtmp :=
    mmap2 add Vtmp (einsum_pb_p_p_pa nfunctions nfunctions phi tmp_grid l_rho_y phi_y) in
  let Vtmp :=
    mmap2 add Vtmp (einsum_pb_p_p_pa nfunctions nfunctions phi tmp_grid l_rho_z phi_z) in
  M ← read_array Varr;
  match iadd_product M lpos (mmap2 add Vtmp (np_transpose Vtmp)) with
  | Some M' => write_array Varr M'
  | None => py_raise
  end;;
  mret (xc_e, vv10_e).

Definition py_compute_vv10 (D : positive) (Vpot : VBase T) : Py (T * positive) :=
  d ← read_array D;
  let nbf := length d in
  Varr ← new_array (np_zeros nbf nbf);
  let total_e := lit 0.0 in
  d ← read_array D;
  tD ← new_array (mmap (mul (lit 2.0)) d);
  let xc_e := lit 0.0 in
  let vv10_e := lit 0.0 in
  '(xc_e, vv10_e) ← py_for (py_outer_block Vpot Varr) (xc_e, vv10_e) (blocks Vpot);
  let xc_e := xc_e + vv10_e in
  mret (xc_e, Varr).

End Objects.

Arguments PyState : clear implicits.
Arguments Py : clear implicits.

(** ** Vocabulary of the statements

    [tabulate n f] is the array [f 0, ..., f (n-1)]; [big_sum m f] is
    [f 0 + ... + f (m-1)] over the reals; [a.[i]] reads an array of reals. *)

Definition tabulate {A : Type} (n : nat) (f : nat -> A) : list A := f <$> seq 0 n.

Definition tabulate2 {A : Type} (n m : nat) (f : nat -> nat -> A) : list (list A) :=
  tabulate n (fun i => tabulate m (f i)).

Definition big_sum (m : nat) (f : nat -> R) : R := foldr Rplus 0%R (tabulate m f).

Notation "a .[ i ]" := (nth i a 0%R) (at level 1, left associativity, format "a .[ i ]").

(** The store [Varr[(lpos[:, None], lpos)] = G] writes some places more than
    once when an index occurs twice in [lpos]: the last write stays.
    [alast k kvs] is the value that the last pair of key [k] carries, and
    [last_index k ks] the last position of [k] in [ks]. *)

Fixpoint alast {V : Type} (k : nat) (kvs : list (nat * V)) : option V :=
  match kvs with
  | [] => None
  | (k', v) :: rest =>
      match alast k rest with
      | Some v' => Some v'
      | None => if decide (k' = k) then Some v else None
      end
  end.

Fixpoint last_index (k : nat) (ks : list nat) : option nat :=
  match ks with
  | [] => None
  | k' :: rest =>
      match last_index k rest with
      | Some a => Some (S a)
      | None => if decide (k' = k) then Some 0%nat else None
      end
  end.

(* an n x n array *)
Definition is_square {T : Type} (n : nat) (M : list (list T)) : Prop :=
  length M = n /\ Forall (fun row => length row = n) M.

(* M[i, j] = M[j, i] for all places of an n x n array *)
Definition is_symmetric `{Arith T} (n : nat) (M : list (list T)) : Prop :=
  forall i j, (i < n)%nat -> (j < n)%nat -> getitem M i j = getitem M j i.

(** The kernel parameters of a point of density [rho] and squared density
    gradient [gamma], as the method states them. *)

Definition W0_of (rho gamma : R) : R :=
  sqrt (0.0093 * (gamma / rho ^ 2) ^ 2 + (4 * PI / 3) * rho)%R.

Definition kappa_of (rho : R) : R :=
  (Rpower rho (1 / 6) * (5.9 * (3 * PI / 2) / Rpower (9 * PI) (1 / 6)))%R.

(* beta = (1/32) (3 / B^2)^(3/4) with B = 5.9 *)
Definition beta : R := (1 / 32 * Rpower (3 / 5.9 ^ 2) (3 / 4))%R.

(** The energies of one block as sums over its points: the semilocal one
    dots the weights with the energy density that the functional returns; the
    non-local one is [sum_i w_i rho_i (beta + phi_kernel_i / 2)], with the
    accumulator [phi_kernel] as the inner loop leaves it. *)

Definition Rsum (l : list R) : R := foldr Rplus 0%R l.

Definition semilocal_energy (Vpot : VBase R) (b : BlockOPoints R) : R :=
  big_sum (length (grid_w b))
    (fun i =>
       (grid_w b).[i] * (V (compute_functional Vpot (point_values Vpot b))).[i])%R.

Definition nonlocal_energy (Vpot : VBase R) (b : BlockOPoints R) : R :=
  big_sum (length (grid_w b))
    (fun i =>
       (grid_w b).[i] * (block_rho Vpot b).[i]
       * (beta + 0.5 * (block_phi Vpot b).1.1.[i]))%R.

(* the second component of the state of the outer loop *)
Definition vv10_e_of {T : Type} (st : T * T * list (list T)) : T := st.1.2.

(** The pair kernel as the formulas of the method state it, point by point:
    [i] is a point of the outer block, [j] a point of the inner block. *)

Module PairSpec.
Section PairSpec.
Variables l_x l_y l_z l_W0 l_kappa : list R.
Variables r_x r_y r_z r_w r_rho r_W0 r_kappa : list R.
Local Open Scope R_scope.

Definition R2 (i j : nat) : R :=
  (l_x.[i] - r_x.[j]) ^ 2 + (l_y.[i] - r_y.[j]) ^ 2 + (l_z.[i] - r_z.[j]) ^ 2.
Definition g (i j : nat) : R := l_W0.[i] * R2 i j + l_kappa.[i].
Definition g' (i j : nat) : R := r_W0.[j] * R2 i j + r_kappa.[j].
Definition F (i j : nat) : R :=
  -1.5 * r_w.[j] * r_rho.[j] / (g i j * g' i j * (g i j + g' i j)).
Definition F_U (i j : nat) : R := F i j * (1 / g i j + 1 / (g i j + g' i j)).
Definition F_W (i j : nat) : R := F_U i j * R2 i j.
End PairSpec.
End PairSpec.

(** ** A small grid

    Two blocks of one point each, at [z = -5] and [z = 5] where the notebook
    puts its two helium atoms, one basis function, and tables with room for
    two points. *)

Definition he_block (zpos : R) : BlockOPoints R :=
  {| grid_w := [1%R];
     grid_x := [0%R];
     grid_y := [0%R];
     grid_z := [zpos];
     functions_local_to_global := [0%nat] |}.

Definition he_point_values : PointValues R :=
  {| RHO_A := [1%R; 0%R];
     GAMMA_AA := [0%R; 0%R];
     RHO_AX := [0%R; 0%R];
     RHO_AY := [0%R; 0%R];
     RHO_AZ := [0%R; 0%R] |}.

Definition he_basis_values : BasisValues R :=
  {| PHI := [[1%R]; [0%R]];
     PHI_X := [[0%R]; [0%R]];
     PHI_Y := [[0%R]; [0%R]];
     PHI_Z := [[0%R]; [0%R]] |}.

Definition he_Vpot : VBase R :=
  {| blocks := [he_block (-5); he_block 5];
     point_values := fun _ => he_point_values;
     basis_values := fun _ => he_basis_values;
     compute_functional :=
       fun _ => {| V := [0%R; 0%R]; V_RHO_A := [0%R; 0%R]; V_GAMMA_AA := [0%R; 0%R] |} |}.

Definition he_state : PyState R :=
  {| arrays := {[ 1%positive := [[1%R]] ]};
     tables := (he_point_values, he_basis_values) |}.

(** ** Vocabulary of the further statements *)

(* what one block adds to the place (i, j) of the potential matrix: the entry
   of its matrix [S] at the last positions of [i] and [j] in its index list *)
Definition scatter_term (lpos : list nat) (S : mat R) (i j : nat) : R :=
  match last_index i lpos, last_index j lpos with
  | Some a, Some b => getitem S a b
  | _, _ => 0%R
  end.

(* the kernel parameters of the points of a block *)
Definition block_W0 (Vpot : VBase R) (b : BlockOPoints R) : list R :=
  (compute_vv10_kernel (block_rho Vpot b) (block_gamma Vpot b)).1.

Definition block_kappa (Vpot : VBase R) (b : BlockOPoints R) : list R :=
  (compute_vv10_kernel (block_rho Vpot b) (block_gamma Vpot b)).2.

(* the formulas of [PairSpec] for point [i] of block [l] and point [j] of
   block [r] *)
Definition pair_F (Vpot : VBase R) (l r : BlockOPoints R) (i j : nat) : R :=
  PairSpec.F (grid_x l) (grid_y l) (grid_z l) (block_W0 Vpot l) (block_kappa Vpot l)
    (grid_x r) (grid_y r) (grid_z r) (grid_w r) (block_rho Vpot r)
    (block_W0 Vpot r) (block_kappa Vpot r) i j.

Definition pair_F_U (Vpot : VBase R) (l r : BlockOPoints R) (i j : nat) : R :=
  PairSpec.F_U (grid_x l) (grid_y l) (grid_z l) (block_W0 Vpot l) (block_kappa Vpot l)
    (grid_x r) (grid_y r) (grid_z r) (grid_w r) (block_rho Vpot r)
    (block_W0 Vpot r) (block_kappa Vpot r) i j.

Definition pair_F_W (Vpot : VBase R) (l r : BlockOPoints R) (i j : nat) : R :=
  PairSpec.F_W (grid_x l) (grid_y l) (grid_z l) (block_W0 Vpot l) (block_kappa Vpot l)
    (grid_x r) (grid_y r) (grid_z r) (grid_w r) (block_rho Vpot r)
    (block_W0 Vpot r) (block_kappa Vpot r) i j.

(* [v_rho] and [v_gamma] of a block after the perturbation *)
Definition block_v (Vpot : VBase R) (l : BlockOPoints R) : list R * list R :=
  let n := length (grid_w l) in
  let ret := compute_functional Vpot (point_values Vpot l) in
  perturb_derivatives (block_rho Vpot l) (block_gamma Vpot l)
    (block_W0 Vpot l) (block_kappa Vpot l)
    (block_phi Vpot l).1.1 (block_phi Vpot l).1.2 (block_phi Vpot l).2
    (take n (V_RHO_A ret)) (take n (V_GAMMA_AA ret)).

(* the tables that the projection reads have room for the points of the block *)
Definition projection_shape (Vpot : VBase R) (l : BlockOPoints R) : Prop :=
  let n := length (grid_w l) in
  let ret := compute_functional Vpot (point_values Vpot l) in
  (n <= length (V_RHO_A ret))%nat /\ (n <= length (V_GAMMA_AA ret))%nat /\
  (n <= length (RHO_AX (point_values Vpot l)))%nat /\
  (n <= length (RHO_AY (point_values Vpot l)))%nat /\
  (n <= length (RHO_AZ (point_values Vpot l)))%nat /\
  (n <= length (PHI (basis_values Vpot l)))%nat /\
  (n <= length (PHI_X (basis_values Vpot l)))%nat /\
  (n <= length (PHI_Y (basis_values Vpot l)))%nat /\
  (n <= length (PHI_Z (basis_values Vpot l)))%nat.

(* a grid of one block of one point and one basis function, in binary64 *)
Definition b64_unit_block : BlockOPoints spec_float :=
  {| grid_w := [b64_of_Z 1];
     grid_x := [b64_of_Z 0];
     grid_y := [b64_of_Z 0];
     grid_z := [b64_of_Z 0];
     functions_local_to_global := [0%nat] |}.

Definition b64_unit_Vpot : VBase spec_float :=
  {| blocks := [b64_unit_block];
     point_values := fun _ =>
       {| RHO_A := [b64_of_Z 1];
          GAMMA_AA := [b64_of_Z 0];
          RHO_AX := [b64_of_Z 0];
          RHO_AY := [b64_of_Z 0];
          RHO_AZ := [b64_of_Z 0] |};
     basis_values := fun _ =>
       {| PHI := [[b64_of_Z 1]];
          PHI_X := [[b64_of_Z 0]];
          PHI_Y := [[b64_of_Z 0]];
          PHI_Z := [[b64_of_Z 0]] |};
     compute_functional := fun _ =>
       {| V := [b64_of_Z 0]; V_RHO_A := [b64_of_Z 0]; V_GAMMA_AA := [b64_of_Z 0] |} |}.

(* the same grid with no density at its point *)
Definition b64_empty_Vpot : VBase spec_float :=
  {| blocks := [b64_unit_block];
     point_values := fun _ =>
       {| RHO_A := [S754_zero false];
          GAMMA_AA := [S754_zero false];
          RHO_AX := [b64_of_Z 0];
          RHO_AY := [b64_of_Z 0];
          RHO_AZ := [b64_of_Z 0] |};
     basis_values := basis_values b64_unit_Vpot;
     compute_functional := compute_functional b64_unit_Vpot |}.

(* ================================================================== *)
(** * Properties *)

Local Open Scope R_scope.

(** ** Exact arithmetic: the scalar operations *)

Lemma Int_part_INR (n : nat) : Int_part (INR n) = Z.of_nat n.
Proof.
  symmetry. apply Int_part_spec. rewrite <- INR_IZR_INZ. lra.
Qed.

Lemma Rnp_pow_INR (x : R) (n : nat) : Rnp_pow x (INR n) = x ^ n.
Proof.
  unfold Rnp_pow. destruct (Rlt_dec 0 x) as [Hx|Hx].
  - by apply Rpower_pow.
  - rewrite Int_part_INR, Nat2Z.id. by destruct (Req_dec_T _ _).
Qed.

Lemma Rnp_pow_pos (x y : R) : 0 < x -> Rnp_pow x y = Rpower x y.
Proof. intros Hx. unfold Rnp_pow. by destruct (Rlt_dec 0 x). Qed.

Lemma Rnp_pow_2 (x : R) : Rnp_pow x (Q2R 2.0) = x * x.
Proof.
  replace (Q2R 2.0) with (INR 2) by (unfold Q2R; simpl; lra).
  rewrite Rnp_pow_INR. lra.
Qed.

Lemma Rpower_gt_0 (x y : R) : 0 < Rpower x y.
Proof. apply exp_pos. Qed.

Ltac arith_unfold :=
  cbn [lit np_pi add sub mul div neg np_sqrt pow exact] in *.
Ltac lit_unfold := unfold Q2R in *; cbn [Qnum Qden] in *.
Ltac lookup_unfold :=
  repeat (rewrite list_lookup_fmap || rewrite lookup_zip_with).

(** ** The kernel evaluator *)

Lemma kernel_lookup (rho gamma : list R) (i : nat) (r g : R) :
  rho !! i = Some r -> gamma !! i = Some g -> 0 < r ->
  (compute_vv10_kernel rho gamma).1 !! i = Some (W0_of r g) /\
  (compute_vv10_kernel rho gamma).2 !! i = Some (kappa_of r).
Proof.
  intros Hr Hg Hpos. unfold compute_vv10_kernel, amap, amap2. cbn [fst snd].
  lookup_unfold. rewrite Hr, Hg. cbn [mbind option_bind fmap option_fmap option_map].
  unfold coef_C, coef_B, W0_of, kappa_of. arith_unfold.
  pose proof PI_RGT_0 as Hpi.
  split; f_equal.
  - f_equal. rewrite Rnp_pow_2. lit_unfold. field. lra.
  - rewrite !Rnp_pow_pos by (lit_unfold; lra).
    replace (Q2R 1.0 / Q2R 6.0) with (1 / 6) by (lit_unfold; lra).
    replace (Q2R 9.0 * PI) with (9 * PI) by (lit_unfold; lra).
    pose proof (Rpower_gt_0 (9 * PI) (1/6)).
    lit_unfold. field. lra.
Qed.

Lemma kernel_length (rho gamma : list R) (n : nat) :
  length rho = n -> length gamma = n ->
  length (compute_vv10_kernel rho gamma).1 = n /\
  length (compute_vv10_kernel rho gamma).2 = n.
Proof.
  intros Hr Hg. unfold compute_vv10_kernel, amap, amap2. cbn [fst snd].
  rewrite !length_fmap, !length_zip_with, !length_fmap, !length_zip_with. lia.
Qed.

Lemma W0_of_pos (r g : R) : 0 < r -> 0 < W0_of r g.
Proof.
  intros Hr. unfold W0_of. apply sqrt_lt_R0.
  pose proof PI_RGT_0. pose proof (pow2_ge_0 (g / r ^ 2)). nra.
Qed.

Lemma kappa_of_pos (r : R) : 0 < kappa_of r.
Proof.
  unfold kappa_of. pose proof PI_RGT_0.
  apply Rmult_lt_0_compat; [apply Rpower_gt_0|].
  apply Rdiv_lt_0_compat; [lra|apply Rpower_gt_0].
Qed.

(** C2: for a point of density [r > 0] (and any [g], in particular
    [g >= 0]), the kernel evaluator returns, at that point,
    [W0 = sqrt (C (g / r^2)^2 + (4 pi / 3) r)] with [C = 0.0093] and
    [kappa = r^(1/6) B (3 pi / 2) / (9 pi)^(1/6)] with [B = 5.9]; the two
    arrays have the shape of the inputs. *)
Theorem compute_vv10_kernel_formula (rho gamma : list R) (n i : nat) (r g : R) :
  length rho = n -> length gamma = n ->
  rho !! i = Some r -> gamma !! i = Some g -> 0 < r -> 0 <= g ->
  let '(W0, kappa) := compute_vv10_kernel rho gamma in
  length W0 = n /\ length kappa = n /\
  W0 !! i = Some (sqrt (0.0093 * (g / r ^ 2) ^ 2 + (4 * PI / 3) * r)) /\
  kappa !! i
    = Some (Rpower r (1 / 6) * (5.9 * (3 * PI / 2) / Rpower (9 * PI) (1 / 6))).
Proof.
  intros Hn Hm Hr Hg Hpos _.
  destruct (kernel_length rho gamma n Hn Hm) as [HW Hk].
  destruct (kernel_lookup rho gamma i r g Hr Hg Hpos) as [HW0 Hkappa].
  destruct (compute_vv10_kernel rho gamma) as [W0 kappa]. by repeat split.
Qed.


Lemma compute_vv10_kernel_formula_witness :
  (compute_vv10_kernel [1] [0]).2 !! 0%nat
  = Some (Rpower 1 (1 / 6) * (5.9 * (3 * PI / 2) / Rpower (9 * PI) (1 / 6))).
Proof.
  pose proof (compute_vv10_kernel_formula [1] [0] 1 0 1 0
                eq_refl eq_refl eq_refl eq_refl Rlt_0_1 (Rle_refl 0)) as Hk.
  destruct (compute_vv10_kernel [1] [0]) as [W0 kappa].
  exact (proj2 (proj2 (proj2 Hk))).
Defined.


(** ** Array operations on tabulated arrays *)

Section Tabulate.
Context {T : Type} `{Arith T}.

Lemma length_tabulate {A} n (f : nat -> A) : length (tabulate n f) = n.
Proof. unfold tabulate. by rewrite length_fmap, length_seq. Qed.

Lemma lookup_tabulate {A} n (f : nat -> A) i :
  (i < n)%nat -> tabulate n f !! i = Some (f i).
Proof.
  intros Hi. unfold tabulate. by rewrite list_lookup_fmap, lookup_seq_lt.
Qed.

Lemma nth_tabulate {A} n (f : nat -> A) i d :
  (i < n)%nat -> nth i (tabulate n f) d = f i.
Proof. intros Hi. apply nth_lookup_Some. by apply lookup_tabulate. Qed.

Lemma tabulate_nth {A} (a : list A) n d :
  length a = n -> a = tabulate n (fun i => nth i a d).
Proof.
  intros Hn. apply (list_eq_same_length _ _ n); [apply length_tabulate|done|].
  intros i x y Hi Hx Hy. rewrite lookup_tabulate in Hy by done.
  rewrite (nth_lookup_Some _ _ _ _ Hx) in Hy. congruence.
Qed.

Lemma tabulate_ext {A} n (f g : nat -> A) :
  (forall i, (i < n)%nat -> f i = g i) -> tabulate n f = tabulate n g.
Proof.
  intros Hfg. unfold tabulate. apply list_fmap_ext. intros i x Hx.
  apply lookup_seq in Hx as [-> Hi]. by apply Hfg.
Qed.

Lemma fmap_tabulate {A B} (g : A -> B) n (f : nat -> A) :
  g <$> tabulate n f = tabulate n (fun i => g (f i)).
Proof. unfold tabulate. by rewrite <- list_fmap_compose. Qed.

Lemma zip_with_tabulate {A B C} (f : A -> B -> C) n a b :
  zip_with f (tabulate n a) (tabulate n b) = tabulate n (fun i => f (a i) (b i)).
Proof.
  unfold tabulate. by rewrite zip_with_fmap_l, zip_with_fmap_r, zip_with_diag.
Qed.

Lemma amap_tabulate f n (a : nat -> T) :
  amap f (tabulate n a) = tabulate n (fun i => f (a i)).
Proof. apply fmap_tabulate. Qed.

Lemma amap2_tabulate f n (a b : nat -> T) :
  amap2 f (tabulate n a) (tabulate n b) = tabulate n (fun i => f (a i) (b i)).
Proof. apply zip_with_tabulate. Qed.

Lemma mmap_tabulate2 f n m (a : nat -> nat -> T) :
  mmap f (tabulate2 n m a) = tabulate2 n m (fun i j => f (a i j)).
Proof.
  unfold mmap, tabulate2. rewrite fmap_tabulate.
  apply tabulate_ext. intros i _. apply amap_tabulate.
Qed.

Lemma mmap2_tabulate2 f n m (a b : nat -> nat -> T) :
  mmap2 f (tabulate2 n m a) (tabulate2 n m b)
  = tabulate2 n m (fun i j => f (a i j) (b i j)).
Proof.
  unfold mmap2, tabulate2. rewrite zip_with_tabulate.
  apply tabulate_ext. intros i _. apply amap2_tabulate.
Qed.

Lemma outer_tabulate f n m (a b : nat -> T) :
  outer f (tabulate n a) (tabulate m b) = tabulate2 n m (fun i j => f (a i) (b j)).
Proof.
  unfold outer, tabulate2. rewrite fmap_tabulate.
  apply tabulate_ext. intros i _. apply amap_tabulate.
Qed.

Lemma col_op_tabulate f n m (a : nat -> T) (b : nat -> nat -> T) :
  col_op f (tabulate n a) (tabulate2 n m b)
  = tabulate2 n m (fun i j => f (a i) (b i j)).
Proof.
  unfold col_op, tabulate2. rewrite zip_with_tabulate.
  apply tabulate_ext. intros i _. apply amap_tabulate.
Qed.

Lemma op_col_tabulate f n m (a : nat -> nat -> T) (b : nat -> T) :
  op_col f (tabulate2 n m a) (tabulate n b)
  = tabulate2 n m (fun i j => f (a i j) (b i)).
Proof.
  unfold op_col, tabulate2. rewrite zip_with_tabulate.
  apply tabulate_ext. intros i _. apply amap_tabulate.
Qed.

Lemma row_op_tabulate f n m (a : nat -> T) (b : nat -> nat -> T) :
  row_op f (tabulate m a) (tabulate2 n m b)
  = tabulate2 n m (fun i j => f (a j) (b i j)).
Proof.
  unfold row_op, tabulate2. rewrite fmap_tabulate.
  apply tabulate_ext. intros i _. apply amap2_tabulate.
Qed.

Lemma op_row_tabulate f n m (a : nat -> nat -> T) (b : nat -> T) :
  op_row f (tabulate2 n m a) (tabulate m b)
  = tabulate2 n m (fun i j => f (a i j) (b j)).
Proof.
  unfold op_row, tabulate2. rewrite fmap_tabulate.
  apply tabulate_ext. intros i _. apply amap2_tabulate.
Qed.

Lemma np_sum_axis1_tabulate2 n m (a : nat -> nat -> T) :
  np_sum_axis1 (tabulate2 n m a) = tabulate n (fun i => np_sum (tabulate m (a i))).
Proof. unfold np_sum_axis1, tabulate2. apply fmap_tabulate. Qed.

Lemma getitem_tabulate2 n m (a : nat -> nat -> T) i j :
  (i < n)%nat -> (j < m)%nat -> getitem (tabulate2 n m a) i j = a i j.
Proof.
  intros Hi Hj. unfold getitem, tabulate2.
  rewrite (nth_tabulate n _ i) by done. by apply nth_tabulate.
Qed.

End Tabulate.

(** ** The pair-kernel integrator *)

Lemma Rnp_pow_lit_2 (x : R) : Rnp_pow x (Q2R 2) = x ^ 2.
Proof.
  replace (Q2R 2) with (INR 2) by (unfold Q2R; simpl; lra).
  apply Rnp_pow_INR.
Qed.

Lemma np_sum_big_sum (m : nat) (f : nat -> R) : np_sum (tabulate m f) = big_sum m f.
Proof.
  unfold np_sum, big_sum. cbn [lit add exact].
  replace (Q2R 0) with 0 by (unfold Q2R; simpl; lra). done.
Qed.

Lemma big_sum_ext (m : nat) (f g : nat -> R) :
  (forall j, (j < m)%nat -> f j = g j) -> big_sum m f = big_sum m g.
Proof. intros Hfg. unfold big_sum. f_equal. by apply tabulate_ext. Qed.

Section PairKernel.
Variables l_x l_y l_z l_W0 l_kappa : list R.
Variables r_x r_y r_z r_w r_rho r_W0 r_kappa : list R.
Variables phi_kernel phi_U phi_W : list R.
Variables n m : nat.

(** C1: for an outer block of [n] points and an inner block of [m] points,
    the pair-kernel integrator computes, for every pair [(i, j)], the squared
    distance [R2], [g], [g'], [F], [F_U] and [F_W] by the formulas of
    [PairSpec], and adds [sum_j F i j] to [phi_kernel[i]],
    [- sum_j F_U i j] to [phi_U[i]] and [- sum_j F_W i j] to [phi_W[i]]. *)
Theorem pair_kernel_formulas :
  length l_x = n -> length l_y = n -> length l_z = n ->
  length l_W0 = n -> length l_kappa = n ->
  length phi_kernel = n -> length phi_U = n -> length phi_W = n ->
  length r_x = m -> length r_y = m -> length r_z = m -> length r_w = m ->
  length r_rho = m -> length r_W0 = m -> length r_kappa = m ->
  let R2 := distance_matrix l_x l_y l_z r_x r_y r_z in
  let g := build_g l_W0 l_kappa R2 in
  let gp := build_gp r_W0 r_kappa R2 in
  let F_kernal := build_F_kernal r_w r_rho g gp in
  let F_U := build_F_U F_kernal g gp in
  let F_W := build_F_W F_U R2 in
  let phi' :=
    pair_kernel l_x l_y l_z l_W0 l_kappa r_x r_y r_z r_w r_rho r_W0 r_kappa
      (phi_kernel, phi_U, phi_W) in
  (forall i j, (i < n)%nat -> (j < m)%nat ->
     getitem R2 i j = PairSpec.R2 l_x l_y l_z r_x r_y r_z i j /\
     getitem g i j = PairSpec.g l_x l_y l_z l_W0 l_kappa r_x r_y r_z i j /\
     getitem gp i j = PairSpec.g' l_x l_y l_z r_x r_y r_z r_W0 r_kappa i j /\
     getitem F_kernal i j
       = PairSpec.F l_x l_y l_z l_W0 l_kappa r_x r_y r_z r_w r_rho r_W0 r_kappa i j /\
     getitem F_U i j
       = PairSpec.F_U l_x l_y l_z l_W0 l_kappa r_x r_y r_z r_w r_rho r_W0 r_kappa i j /\
     getitem F_W i j
       = PairSpec.F_W l_x l_y l_z l_W0 l_kappa r_x r_y r_z r_w r_rho r_W0 r_kappa i j) /\
  (length phi'.1.1 = n /\ length phi'.1.2 = n /\ length phi'.2 = n) /\
  (forall i, (i < n)%nat ->
     phi'.1.1.[i] = phi_kernel.[i]
       + big_sum m (PairSpec.F l_x l_y l_z l_W0 l_kappa r_x r_y r_z r_w r_rho r_W0 r_kappa i) /\
     phi'.1.2.[i] = phi_U.[i]
       + - big_sum m (PairSpec.F_U l_x l_y l_z l_W0 l_kappa r_x r_y r_z r_w r_rho r_W0 r_kappa i) /\
     phi'.2.[i] = phi_W.[i]
       + - big_sum m (PairSpec.F_W l_x l_y l_z l_W0 l_kappa r_x r_y r_z r_w r_rho r_W0 r_kappa i)).
Proof.
  intros. subst phi' F_W F_U F_kernal gp g R2.
  set (sR2 := PairSpec.R2 l_x l_y l_z r_x r_y r_z).
  set (sg := PairSpec.g l_x l_y l_z l_W0 l_kappa r_x r_y r_z).
  set (sg' := PairSpec.g' l_x l_y l_z r_x r_y r_z r_W0 r_kappa).
  set (sF := PairSpec.F l_x l_y l_z l_W0 l_kappa r_x r_y r_z r_w r_rho r_W0 r_kappa).
  set (sFU := PairSpec.F_U l_x l_y l_z l_W0 l_kappa r_x r_y r_z r_w r_rho r_W0 r_kappa).
  set (sFW := PairSpec.F_W l_x l_y l_z l_W0 l_kappa r_x r_y r_z r_w r_rho r_W0 r_kappa).
  set (pk := fun i => phi_kernel.[i]). set (pu := fun i => phi_U.[i]).
  set (pw := fun i => phi_W.[i]).
  change (nth ?i phi_kernel 0) with (pk i).
  change (nth ?i phi_U 0) with (pu i).
  change (nth ?i phi_W 0) with (pw i).
  repeat match goal with
  | Hlen : length ?a = _ |- _ => rewrite (tabulate_nth a _ 0 Hlen); clear Hlen
  end.
  unfold pair_kernel, build_F_W, build_F_U, build_F_kernal, build_gp, build_g,
    distance_matrix.
  repeat (rewrite ?outer_tabulate, ?mmap_tabulate2, ?mmap2_tabulate2,
    ?col_op_tabulate, ?op_col_tabulate, ?row_op_tabulate, ?op_row_tabulate,
    ?amap_tabulate, ?amap2_tabulate, ?np_sum_axis1_tabulate2).
  cbn [fst snd]. rewrite !length_tabulate.
  assert (Hlit1 : Q2R 1.0 = 1) by (lit_unfold; lra).
  assert (Hlit15 : - Q2R 1.5 = -1.5) by (lit_unfold; lra).
  subst sR2 sg sg' sF sFU sFW pk pu pw.
  unfold PairSpec.F_W, PairSpec.F_U, PairSpec.F, PairSpec.g, PairSpec.g',
    PairSpec.R2.
  split; [|split; [done|]].
  - intros i j Hi Hj. rewrite !getitem_tabulate2 by done.
    unfold square. arith_unfold. rewrite !Rnp_pow_lit_2, Hlit1, Hlit15. done.
  - intros i Hi. rewrite !nth_tabulate by done. rewrite !np_sum_big_sum.
    unfold square. arith_unfold.
    repeat split; apply (f_equal (Rplus _)); try apply (f_equal Ropp);
      apply big_sum_ext; intros j Hj;
      rewrite !Rnp_pow_lit_2, ?Hlit1, Hlit15; done.
Qed.
End PairKernel.

Lemma pair_kernel_formulas_witness :
  (pair_kernel [0] [0] [0] [1] [1] [0] [0] [5] [1] [1] [1] [1] ([0], [0], [0])).1.1.[0]
  = 0 + big_sum 1 (PairSpec.F [0] [0] [0] [1] [1] [0] [0] [5] [1] [1] [1] [1] 0).
Proof.
  pose proof (pair_kernel_formulas
                [0] [0] [0] [1] [1] [0] [0] [5] [1] [1] [1] [1] [0] [0] [0] 1 1
                eq_refl eq_refl eq_refl eq_refl eq_refl eq_refl eq_refl eq_refl
                eq_refl eq_refl eq_refl eq_refl eq_refl eq_refl eq_refl) as Hpair.
  cbv zeta in Hpair. destruct Hpair as (_ & _ & Hsum).
  exact (proj1 (Hsum 0%nat (Nat.lt_0_succ 0))).
Defined.

(** ** The derivative assembler *)

Lemma Rnp_pow_lit (x : R) (q : Q) (k : nat) :
  Q2R q = INR k -> Rnp_pow x (Q2R q) = x ^ k.
Proof. intros ->. apply Rnp_pow_INR. Qed.

Lemma coef_beta_value : coef_beta = beta.
Proof.
  unfold coef_beta, coef_B, beta. arith_unfold. rewrite Rnp_pow_2.
  rewrite Rnp_pow_pos by (lit_unfold; lra).
  replace (Q2R 3.0 / (Q2R 5.9 * Q2R 5.9)) with (3 / 5.9 ^ 2) by (lit_unfold; lra).
  replace (Q2R 3.0 / Q2R 4.0) with (3 / 4) by (lit_unfold; lra).
  lit_unfold. lra.
Qed.

Ltac tabulate_array a :=
  let f := fresh a "_at" in
  set (f := fun i => nth i a 0%R);
  change (nth ?i a 0) with (f i);
  match goal with
  | Hlen : length a = _ |- _ => rewrite (tabulate_nth a _ 0 Hlen); clear Hlen
  end.

Ltac tabulate_norm :=
  repeat (rewrite ?outer_tabulate, ?mmap_tabulate2, ?mmap2_tabulate2,
    ?col_op_tabulate, ?op_col_tabulate, ?row_op_tabulate, ?op_row_tabulate,
    ?amap_tabulate, ?amap2_tabulate, ?np_sum_axis1_tabulate2).

Section Assembler.
Variables l_rho l_gamma l_W0 l_kappa : list R.
Variables phi_kernel phi_U phi_W v_rho v_gamma : list R.
Variable n : nat.

(** C3: the derivative assembler computes [kappa_dn], [w0_dgamma] and
    [w0_drho] by the three formulas; the new [v_rho] is the old one plus
    [beta + phi_kernel + rho (kappa_dn phi_U + w0_drho phi_W)], the sum
    multiplied by [0.5] once; the new [v_gamma] is the old one plus
    [rho w0_dgamma phi_W], not halved. *)
Theorem perturb_derivatives_formulas :
  length l_rho = n -> length l_gamma = n -> length l_W0 = n ->
  length l_kappa = n -> length phi_kernel = n -> length phi_U = n ->
  length phi_W = n -> length v_rho = n -> length v_gamma = n ->
  let kappa_dn := build_kappa_dn l_kappa l_rho in
  let w0_dgamma := build_w0_dgamma l_gamma l_W0 l_rho in
  let w0_drho := build_w0_drho l_gamma l_W0 l_rho in
  let v' :=
    perturb_derivatives l_rho l_gamma l_W0 l_kappa phi_kernel phi_U phi_W
      v_rho v_gamma in
  length v'.1 = n /\ length v'.2 = n /\
  forall i, (i < n)%nat ->
    kappa_dn.[i] = l_kappa.[i] / (6 * l_rho.[i]) /\
    w0_dgamma.[i] = 0.0093 * l_gamma.[i] / (l_W0.[i] * l_rho.[i] ^ 4) /\
    w0_drho.[i]
      = 2 / l_W0.[i] * (PI / 3 - 0.0093 * l_gamma.[i] ^ 2 / l_rho.[i] ^ 5) /\
    v'.1.[i]
      = (v_rho.[i]
         + (beta + phi_kernel.[i]
            + l_rho.[i] * (kappa_dn.[i] * phi_U.[i] + w0_drho.[i] * phi_W.[i])))
        * 0.5 /\
    v'.2.[i] = v_gamma.[i] + l_rho.[i] * w0_dgamma.[i] * phi_W.[i].
Proof.
  intros. subst v' kappa_dn w0_dgamma w0_drho.
  unfold perturb_derivatives, build_kappa_dn, build_w0_dgamma, build_w0_drho.
  tabulate_array l_rho. tabulate_array l_gamma. tabulate_array l_W0.
  tabulate_array l_kappa. tabulate_array phi_kernel. tabulate_array phi_U.
  tabulate_array phi_W. tabulate_array v_rho. tabulate_array v_gamma.
  tabulate_norm. cbn [fst snd]. rewrite !length_tabulate.
  split; [done|]. split; [done|]. intros i Hi.
  rewrite !nth_tabulate by done. rewrite coef_beta_value.
  unfold coef_C. arith_unfold.
  rewrite (Rnp_pow_lit _ 4.0 4), (Rnp_pow_lit _ 5.0 5), (Rnp_pow_lit _ 2.0 2)
    by (lit_unfold; simpl; lra).
  replace (Q2R 6.0) with 6 by (lit_unfold; lra).
  replace (Q2R 0.0093) with 0.0093 by (lit_unfold; lra).
  replace (Q2R 2.0) with 2 by (lit_unfold; lra).
  replace (Q2R 3.0) with 3 by (lit_unfold; lra).
  replace (Q2R 0.5) with 0.5 by (lit_unfold; lra).
  done.
Qed.
End Assembler.

Lemma perturb_derivatives_formulas_witness :
  (perturb_derivatives [1] [0] [1] [1] [0] [0] [0] [2] [3]).1.[0]
  = (2 + (beta + 0
          + 1 * ((build_kappa_dn [1] [1]).[0] * 0
                 + (build_w0_drho [0] [1] [1]).[0] * 0))) * 0.5.
Proof.
  pose proof (perturb_derivatives_formulas [1] [0] [1] [1] [0] [0] [0] [2] [3] 1
                eq_refl eq_refl eq_refl eq_refl eq_refl eq_refl eq_refl eq_refl
                eq_refl) as Hv.
  cbv zeta in Hv. destruct Hv as (_ & _ & Hv).
  exact (proj1 (proj2 (proj2 (proj2 (Hv 0%nat (Nat.lt_0_succ 0)))))).
Defined.

(** ** The loop over the outer blocks *)

Section OuterLoop.
Context {T : Type} `{Arith T}.
Local Open Scope arith_scope.

Lemma outer_block_unfold (Vpot : VBase T) xc_e vv10_e Varr l_grid :
  outer_block Vpot (xc_e, vv10_e, Varr) l_grid
  = (Varr' ← iadd_product Varr (functions_local_to_global l_grid)
               (mmap2 add (block_Vtmp Vpot l_grid)
                  (np_transpose (block_Vtmp Vpot l_grid)));
     Some (xc_e + block_xc_e Vpot l_grid, vv10_e + block_nl_e Vpot l_grid, Varr')).
Proof.
  unfold outer_block, block_Vtmp, block_nl_e, block_xc_e, block_phi,
    block_rho, block_gamma.
  cbv zeta.
  destruct (compute_vv10_kernel _ _) as [l_W0 l_kappa].
  destruct (foldl _ _ _) as [[phi_kernel phi_U] phi_W].
  destruct (perturb_derivatives _ _ _ _ _ _ _ _ _) as [v_rho v_gamma].
  reflexivity.
Qed.

Lemma foldl_bind_None {A B} (f : A -> B -> option A) (bs : list B) :
  foldl (fun st b => st ≫= fun st => f st b) None bs = None.
Proof. by induction bs. Qed.

Lemma outer_fold (Vpot : VBase T) bs xc_e vv10_e Varr :
  foldl (fun st l_grid => st ≫= fun st => outer_block Vpot st l_grid)
    (Some (xc_e, vv10_e, Varr)) bs
  = (Varr' ← sum_back Vpot Varr bs;
     Some (foldl (fun e l_grid => e + block_xc_e Vpot l_grid) xc_e bs,
           foldl (fun e l_grid => e + block_nl_e Vpot l_grid) vv10_e bs,
           Varr')).
Proof.
  unfold sum_back.
  revert xc_e vv10_e Varr. induction bs as [|l bs IH]; intros; [done|].
  cbn [foldl mbind option_bind]. rewrite outer_block_unfold.
  fold (block_Vsym Vpot l).
  destruct (iadd_product _ _ _) as [Varr'|]; cbn [mbind option_bind].
  - apply IH.
  - by rewrite !foldl_bind_None.
Qed.

Lemma outer_loop_unfold (D : mat T) (Vpot : VBase T) :
  outer_loop D Vpot
  = (Varr ← sum_back Vpot (np_zeros (length D) (length D)) (blocks Vpot);
     Some (foldl (fun e l_grid => e + block_xc_e Vpot l_grid) (lit 0.0) (blocks Vpot),
           foldl (fun e l_grid => e + block_nl_e Vpot l_grid) (lit 0.0) (blocks Vpot),
           Varr)).
Proof. apply outer_fold. Qed.

End OuterLoop.

(** ** Summing back into the potential matrix *)

Section SumBack.
Context {T : Type} `{Arith T}.

Lemma last_index_lt k ks a : last_index k ks = Some a -> (a < length ks)%nat.
Proof.
  revert a. induction ks as [|k' ks IH]; intros a; cbn; [done|].
  destruct (last_index k ks) as [a'|].
  - intros [= <-]. specialize (IH _ eq_refl). lia.
  - case_decide; [|done]. intros [= <-]. lia.
Qed.

Lemma last_index_lookup k ks a : last_index k ks = Some a -> ks !! a = Some k.
Proof.
  revert a. induction ks as [|k' ks IH]; intros a; cbn; [done|].
  destruct (last_index k ks) as [a'|].
  - intros [= <-]. by apply IH.
  - case_decide; [|done]. intros [= <-]. by subst.
Qed.

Lemma alast_zip {V} k ks (vs : list V) :
  length vs = length ks -> alast k (zip ks vs) = last_index k ks ≫= (vs !!.).
Proof.
  revert vs. induction ks as [|k' ks IH]; intros [|v vs] Hlen; try done.
  cbn in Hlen. cbn [zip zip_with alast last_index]. rewrite IH by lia.
  destruct (last_index k ks) as [a|] eqn:Ha; cbn.
  - apply last_index_lt in Ha.
    destruct (lookup_lt_is_Some_2 vs a) as [v' Hv']; [lia|]. by rewrite Hv'.
  - by case_decide.
Qed.

(* one row: row[q] = v for the pairs (q, v), in order *)
Lemma nth_assign_row (row : list T) (kvs : list (nat * T)) j d :
  (j < length row)%nat ->
  nth j (foldl (fun r qv => <[qv.1 := qv.2]> r) row kvs) d
  = default (nth j row d) (alast j kvs).
Proof.
  revert row. induction kvs as [|[q v] kvs IH]; intros row Hj; [done|].
  cbn [foldl alast fst snd]. rewrite IH by by rewrite length_insert.
  destruct (alast j kvs) as [v'|]; [done|]. cbn.
  rewrite !nth_lookup. case_decide as Hq.
  - subst q. by rewrite list_lookup_insert_eq.
  - by rewrite list_lookup_insert_ne.
Qed.

Lemma length_assign_row (row : list T) (kvs : list (nat * T)) :
  length (foldl (fun r qv => <[qv.1 := qv.2]> r) row kvs) = length row.
Proof.
  revert row. induction kvs as [|[q v] kvs IH]; intros row; [done|].
  cbn [foldl]. by rewrite IH, length_insert.
Qed.

Lemma setitem_row (A : mat T) (p : nat) (kvs : list (nat * T)) :
  foldl (fun A qv => setitem A p qv.1 qv.2) A kvs
  = alter (fun r => foldl (fun r qv => <[qv.1 := qv.2]> r) r kvs) p A.
Proof.
  revert A. induction kvs as [|[q v] kvs IH]; intros A; cbn [foldl].
  - symmetry. apply list_eq. intros i. rewrite list_lookup_alter.
    case_decide; [subst; by destruct (A !! i)|done].
  - rewrite IH. unfold setitem. by rewrite list_alter_alter_eq.
Qed.

Lemma setitem_product_unfold (A : mat T) (lpos : list nat) (G : mat T) :
  setitem_product A lpos G
  = foldl
      (fun A pr =>
         alter (fun r => foldl (fun r qv => <[qv.1 := qv.2]> r) r (zip lpos pr.2))
           pr.1 A)
      A (zip lpos G).
Proof.
  unfold setitem_product. generalize (zip lpos G). intros prs. revert A.
  induction prs as [|pr prs IH]; intros A; [done|].
  cbn [foldl]. by rewrite setitem_row, IH.
Qed.

Lemma is_square_alter_assign n (A : mat T) p kvs :
  is_square n A ->
  is_square n (alter (fun r => foldl (fun r qv => <[qv.1 := qv.2]> r) r kvs) p A).
Proof.
  intros [Hlen Hrows]. split; [by rewrite length_alter|].
  apply Forall_alter; [done|]. intros row _ Hrow. by rewrite length_assign_row.
Qed.

Lemma is_square_setitem_product n (A : mat T) lpos G :
  is_square n A -> is_square n (setitem_product A lpos G).
Proof.
  rewrite setitem_product_unfold. generalize (zip lpos G). intros prs. revert A.
  induction prs as [|pr prs IH]; intros A HA; [done|].
  cbn [foldl]. by apply IH, is_square_alter_assign.
Qed.

Lemma getitem_alter_assign n (A : mat T) p kvs i j :
  is_square n A -> (i < n)%nat -> (j < n)%nat ->
  getitem (alter (fun r => foldl (fun r qv => <[qv.1 := qv.2]> r) r kvs) p A) i j
  = if decide (p = i) then default (getitem A i j) (alast j kvs)
    else getitem A i j.
Proof.
  intros [Hlen Hrows] Hi Hj. unfold getitem.
  destruct (lookup_lt_is_Some_2 A i) as [row Hrow]; [lia|].
  assert (length row = n) as Hr.
  { by apply (Forall_lookup_1 _ _ _ _ Hrows Hrow). }
  rewrite !(nth_lookup _ i []), list_lookup_alter.
  case_decide; [subst p|]; rewrite Hrow; [|done]. cbn. apply nth_assign_row. lia.
Qed.

Lemma alast_zip_None {V} k ks (vs vs' : list V) :
  length vs = length ks -> length vs' = length ks ->
  alast k (zip ks vs) = None -> alast k (zip ks vs') = None.
Proof.
  intros Hvs Hvs'. rewrite !alast_zip by done.
  destruct (last_index k ks) as [a|] eqn:Ha; [|done]. cbn.
  apply last_index_lt in Ha.
  destruct (lookup_lt_is_Some_2 vs a) as [v Hv]; [lia|]. by rewrite Hv.
Qed.

Lemma getitem_fold_assign n (A : mat T) (qs : list nat) (prs : list (nat * list T)) i j :
  is_square n A -> (i < n)%nat -> (j < n)%nat ->
  Forall (fun pr => length pr.2 = length qs) prs ->
  getitem
    (foldl
       (fun A pr =>
          alter (fun r => foldl (fun r qv => <[qv.1 := qv.2]> r) r (zip qs pr.2))
            pr.1 A)
       A prs) i j
  = match alast i prs with
    | Some row => default (getitem A i j) (alast j (zip qs row))
    | None => getitem A i j
    end.
Proof.
  intros HA Hi Hj Hprs. revert A HA.
  induction Hprs as [|[p row] prs Hrow Hprs IH]; intros A HA; [done|].
  cbn [foldl alast fst snd] in *.
  rewrite IH by by apply is_square_alter_assign.
  rewrite (getitem_alter_assign n) by done.
  destruct (alast i prs) as [row'|] eqn:Hlast.
  - destruct (alast j (zip qs row')) as [v|] eqn:Hv; [done|]. cbn.
    case_decide; [|done].
    assert (length row' = length qs) as Hrow'.
    { clear -Hlast Hprs. induction Hprs as [|[p' r'] prs Hr Hprs IH]; [done|].
      cbn in Hlast. destruct (alast i prs); [by apply IH|].
      case_decide; [|done]. by injection Hlast as <-. }
    by rewrite (alast_zip_None j qs row' row).
  - by case_decide.
Qed.

(* the entries after Varr[(lpos[:, None], lpos)] = G, for G given by [h] *)
Lemma getitem_setitem_product n (A : mat T) lpos (h : nat -> nat -> T) i j :
  is_square n A -> (i < n)%nat -> (j < n)%nat ->
  getitem (setitem_product A lpos (tabulate2 (length lpos) (length lpos) h)) i j
  = match last_index i lpos, last_index j lpos with
    | Some a, Some b => h a b
    | _, _ => getitem A i j
    end.
Proof.
  intros HA Hi Hj. rewrite setitem_product_unfold.
  rewrite (getitem_fold_assign n) by
    (try done; apply Forall_forall; intros [p row] Hin;
     apply elem_of_zip_r in Hin; cbn in *; unfold tabulate2, tabulate in Hin;
     apply list_elem_of_fmap in Hin as (a & -> & _); apply length_tabulate).
  rewrite alast_zip by (unfold tabulate2; apply length_tabulate).
  destruct (last_index i lpos) as [a|] eqn:Ha; [|done]. cbn.
  pose proof (last_index_lt _ _ _ Ha) as Hlt.
  unfold tabulate2 at 1. rewrite lookup_tabulate by done.
  rewrite alast_zip by apply length_tabulate.
  destruct (last_index j lpos) as [b|] eqn:Hb; [|done]. cbn.
  pose proof (last_index_lt _ _ _ Hb) as Hlt'.
  by rewrite lookup_tabulate.
Qed.

End SumBack.

(** ** The potential matrix is symmetric *)

Section Shapes.
Context {T : Type} `{Arith T}.

Lemma einsum_tabulate2 na nb (A : mat T) u v B :
  exists f, einsum_pb_p_p_pa na nb A u v B = tabulate2 na nb f.
Proof. by eexists. Qed.

Lemma block_Vtmp_tabulate2 (Vpot : VBase T) l_grid :
  exists f,
    block_Vtmp Vpot l_grid
    = tabulate2 (length (functions_local_to_global l_grid))
        (length (functions_local_to_global l_grid)) f.
Proof.
  unfold block_Vtmp. cbv zeta.
  destruct (compute_vv10_kernel _ _) as [l_W0 l_kappa].
  destruct (block_phi _ _) as [[phi_kernel phi_U] phi_W].
  destruct (perturb_derivatives _ _ _ _ _ _ _ _ _) as [v_rho v_gamma].
  repeat match goal with
  | |- context [einsum_pb_p_p_pa ?na ?nb ?A ?u ?v ?B] =>
      let f := fresh "f" in
      destruct (einsum_tabulate2 na nb A u v B) as [f ->]
  end.
  rewrite !mmap2_tabulate2. by eexists.
Qed.

Lemma np_transpose_tabulate2 n (f : nat -> nat -> T) :
  np_transpose (tabulate2 n n f) = tabulate2 n n (fun a b => f b a).
Proof.
  unfold np_transpose.
  assert (length (hd [] (tabulate2 n n f)) = n) as ->.
  { destruct n; [done|]. cbn. by rewrite length_fmap, length_seq. }
  unfold tabulate2 at 2. fold (tabulate n (fun j => (fun row => nth j row (lit 0)) <$> tabulate2 n n f)).
  apply tabulate_ext. intros j Hj. unfold tabulate2. rewrite fmap_tabulate.
  apply tabulate_ext. intros i Hi. by apply nth_tabulate.
Qed.

Lemma fmap_as_tabulate {A B} (g : A -> B) (l : list A) (d : A) :
  g <$> l = tabulate (length l) (fun a => g (nth a l d)).
Proof. rewrite <- fmap_tabulate. f_equal. by apply tabulate_nth. Qed.

Lemma getitem_product_tabulate2 (A : mat T) (lpos : list nat) :
  getitem_product A lpos
  = tabulate2 (length lpos) (length lpos)
      (fun a b => getitem A (nth a lpos 0%nat) (nth b lpos 0%nat)).
Proof.
  unfold getitem_product, tabulate2.
  rewrite (fmap_as_tabulate _ lpos 0%nat). apply tabulate_ext. intros a Ha.
  apply fmap_as_tabulate.
Qed.

Lemma is_square_np_zeros n : is_square n (np_zeros n n).
Proof.
  unfold np_zeros. split; [by rewrite length_replicate|].
  apply Forall_replicate. by rewrite length_replicate.
Qed.

Lemma getitem_np_zeros n i j :
  (i < n)%nat -> (j < n)%nat -> getitem (np_zeros n n) i j = lit 0.
Proof.
  intros Hi Hj. unfold getitem, np_zeros.
  rewrite !nth_lookup, lookup_replicate_2 by done. cbn.
  by rewrite lookup_replicate_2.
Qed.

Lemma iadd_product_Some (Varr : mat T) lpos S M :
  iadd_product Varr lpos S = Some M ->
  M = setitem_product Varr lpos (mmap2 add (getitem_product Varr lpos) S).
Proof. unfold iadd_product. case_match; congruence. Qed.

Lemma is_square_iadd_product n (Varr : mat T) lpos S M :
  is_square n Varr -> iadd_product Varr lpos S = Some M -> is_square n M.
Proof.
  intros HV ->%iadd_product_Some. by apply is_square_setitem_product.
Qed.

(* list equality of two n x n arrays from the equality of their entries *)
Lemma is_square_eq n (A B : mat T) :
  is_square n A -> is_square n B ->
  (forall i j, (i < n)%nat -> (j < n)%nat -> getitem A i j = getitem B i j) ->
  A = B.
Proof.
  intros [HA HAr] [HB HBr] Heq.
  apply (list_eq_same_length _ _ n); [done..|].
  intros i ra rb Hi Hra Hrb.
  apply (list_eq_same_length _ _ n);
    [by apply (Forall_lookup_1 _ _ _ _ HBr Hrb)
    |by apply (Forall_lookup_1 _ _ _ _ HAr Hra)|].
  intros j x y Hj Hx Hy. specialize (Heq i j Hi Hj). unfold getitem in Heq.
  rewrite (nth_lookup_Some _ _ _ _ Hra), (nth_lookup_Some _ _ _ _ Hrb) in Heq.
  by rewrite (nth_lookup_Some _ _ _ _ Hx), (nth_lookup_Some _ _ _ _ Hy) in Heq.
Qed.

Lemma is_square_tabulate2 n (f : nat -> nat -> T) : is_square n (tabulate2 n n f).
Proof.
  split; [apply length_tabulate|]. apply Forall_forall. intros row Hrow.
  unfold tabulate2, tabulate in Hrow.
  apply list_elem_of_fmap in Hrow as (i & -> & _). by rewrite length_fmap, length_seq.
Qed.

Lemma np_transpose_symmetric n (M : mat T) :
  is_square n M -> is_symmetric n M -> np_transpose M = M.
Proof.
  intros HM Hsym.
  assert (M = tabulate2 n n (getitem M)) as HMtab.
  { apply (is_square_eq n); [done|apply is_square_tabulate2|].
    intros i j Hi Hj. by rewrite getitem_tabulate2. }
  rewrite HMtab at 1. rewrite np_transpose_tabulate2.
  symmetry. apply (is_square_eq n); [done|apply is_square_tabulate2|].
  intros i j Hi Hj. rewrite getitem_tabulate2 by done. by apply Hsym.
Qed.

End Shapes.

Section SumBackDefined.
Context {T : Type} `{Arith T}.

Lemma length_setitem_product (A : mat T) lpos G :
  length (setitem_product A lpos G) = length A.
Proof.
  rewrite setitem_product_unfold. generalize (zip lpos G). intros prs. revert A.
  induction prs as [|pr prs IH]; intros A; [done|].
  cbn [foldl]. by rewrite IH, length_alter.
Qed.

Lemma iadd_product_is_Some (Varr : mat T) lpos S :
  is_Some (iadd_product Varr lpos S)
  <-> Forall (fun p => (p < length Varr)%nat) lpos.
Proof.
  unfold iadd_product. rewrite Forall_forall.
  destruct (forallb _ lpos) eqn:Hall.
  - split; [|by eexists]. intros _ p Hp.
    rewrite forallb_forall in Hall. apply Nat.ltb_lt, Hall.
    by apply list_elem_of_In.
  - split; [by intros [? [=]]|]. intros Hlt.
    assert (forallb (fun p => (p <? length Varr)%nat) lpos = true) as Htrue.
    { apply forallb_forall. intros p Hp. apply Nat.ltb_lt, Hlt.
      by apply list_elem_of_In. }
    congruence.
Qed.

Lemma sum_back_is_Some n (Vpot : VBase T) (Varr : mat T) bs :
  length Varr = n ->
  is_Some (sum_back Vpot Varr bs)
  <-> Forall
        (fun b => Forall (fun p => (p < n)%nat) (functions_local_to_global b)) bs.
Proof.
  unfold sum_back. revert Varr. induction bs as [|l bs IH]; intros Varr Hn.
  - split; [done|]. intros _. by eexists.
  - cbn [foldl mbind option_bind]. rewrite Forall_cons.
    destruct (iadd_product _ _ _) as [Varr'|] eqn:Hadd.
    + rewrite IH.
      * assert (is_Some (iadd_product Varr (functions_local_to_global l)
                  (block_Vsym Vpot l))) as Hs by (by rewrite Hadd).
        apply iadd_product_is_Some in Hs. rewrite Hn in Hs. tauto.
      * apply iadd_product_Some in Hadd as ->.
        by rewrite length_setitem_product.
    + rewrite foldl_bind_None. split; [by intros [? [=]]|]. intros [Hl _].
      assert (is_Some (iadd_product Varr (functions_local_to_global l)
                (block_Vsym Vpot l))) as [? Hs].
      { apply iadd_product_is_Some. by rewrite Hn. }
      congruence.
Qed.

Lemma length_np_zeros n m : length (np_zeros n m : mat T) = n.
Proof. apply length_replicate. Qed.

Lemma compute_vv10_defined (D : mat T) (Vpot : VBase T) :
  Forall
    (fun b => Forall (fun p => (p < length D)%nat) (functions_local_to_global b))
    (blocks Vpot) ->
  exists e M, compute_vv10 D Vpot = Some (e, M).
Proof.
  intros Hidx. unfold compute_vv10. rewrite outer_loop_unfold.
  destruct (proj2 (sum_back_is_Some (length D) Vpot
              (np_zeros (length D) (length D)) (blocks Vpot)
              (length_np_zeros _ _)) Hidx) as [M ->].
  by eexists _, _.
Qed.

Lemma last_index_NoDup k ks a :
  NoDup ks -> ks !! a = Some k -> last_index k ks = Some a.
Proof.
  intros Hnd. revert a. induction Hnd as [|k' ks Hnotin Hnd IH]; intros a; [done|].
  destruct a as [|a]; cbn.
  - intros [= ->]. destruct (last_index k ks) as [b|] eqn:Hb.
    + apply last_index_lookup in Hb. apply list_elem_of_lookup_2 in Hb. done.
    + by case_decide.
  - intros Ha. by rewrite (IH a Ha).
Qed.

Lemma last_index_None k ks : k ∉ ks -> last_index k ks = None.
Proof.
  induction ks as [|k' ks IH]; [done|]. rewrite not_elem_of_cons. intros [Hne Hnotin].
  cbn. rewrite IH by done. by case_decide.
Qed.

(** [Varr[(lpos[:, None], lpos)] += S] adds in place: for an index list
    without repetition, every place [(lpos[a], lpos[b])] of the product
    receives the entry [(a, b)] of [S] on top of what it held, and no other
    place of the matrix changes; this holds in any arithmetic. *)
Lemma iadd_product_accumulates n (Varr : mat T) lpos (f : nat -> nat -> T) M :
  is_square n Varr -> NoDup lpos ->
  iadd_product Varr lpos (tabulate2 (length lpos) (length lpos) f) = Some M ->
  (forall a b p q, lpos !! a = Some p -> lpos !! b = Some q ->
     getitem M p q = add (getitem Varr p q) (f a b)) /\
  (forall i j, (i < n)%nat -> (j < n)%nat -> i ∉ lpos \/ j ∉ lpos ->
     getitem M i j = getitem Varr i j).
Proof.
  intros Hsq Hnd Hadd.
  assert (Forall (fun p => (p < n)%nat) lpos) as Hidx.
  { destruct Hsq as [<- _]. apply (iadd_product_is_Some Varr lpos
      (tabulate2 (length lpos) (length lpos) f)). by rewrite Hadd. }
  apply iadd_product_Some in Hadd as ->.
  rewrite getitem_product_tabulate2, mmap2_tabulate2.
  rewrite Forall_forall in Hidx. split.
  - intros a b p q Ha Hb.
    rewrite (getitem_setitem_product n); [|done|..].
    + rewrite (last_index_NoDup p lpos a), (last_index_NoDup q lpos b) by done.
      by rewrite (nth_lookup_Some _ _ _ _ Ha), (nth_lookup_Some _ _ _ _ Hb).
    + apply Hidx. by eapply list_elem_of_lookup_2.
    + apply Hidx. by eapply list_elem_of_lookup_2.
  - intros i j Hi Hj Hnotin. rewrite (getitem_setitem_product n) by done.
    destruct Hnotin as [Hnotin|Hnotin]; rewrite (last_index_None _ _ Hnotin);
      [done|by destruct (last_index i lpos)].
Qed.

End SumBackDefined.

Section Symmetric.
Context {T : Type} `{Arith T}.

Lemma is_symmetric_iadd_product n (Varr : mat T) lpos (f : nat -> nat -> T) M :
  (forall x y : T, add x y = add y x) ->
  is_square n Varr -> is_symmetric n Varr ->
  iadd_product Varr lpos
    (mmap2 add (tabulate2 (length lpos) (length lpos) f)
       (np_transpose (tabulate2 (length lpos) (length lpos) f))) = Some M ->
  is_symmetric n M.
Proof.
  intros Hcomm Hsq Hsym ->%iadd_product_Some.
  rewrite np_transpose_tabulate2, getitem_product_tabulate2, !mmap2_tabulate2.
  intros i j Hi Hj. rewrite !(getitem_setitem_product n) by done.
  destruct (last_index i lpos) as [a|] eqn:Ha,
           (last_index j lpos) as [b|] eqn:Hb; try by apply Hsym.
  apply last_index_lookup in Ha, Hb.
  rewrite !(nth_lookup_Some _ _ _ _ Ha), !(nth_lookup_Some _ _ _ _ Hb).
  rewrite (Hsym i j) by done. f_equal. apply Hcomm.
Qed.

Lemma sum_back_symmetric n (Vpot : VBase T) (Varr : mat T) bs M :
  (forall x y : T, add x y = add y x) ->
  is_square n Varr -> is_symmetric n Varr ->
  sum_back Vpot Varr bs = Some M ->
  is_square n M /\ is_symmetric n M.
Proof.
  intros Hcomm. unfold sum_back. revert Varr.
  induction bs as [|l bs IH]; intros Varr Hsq Hsym.
  - by intros [= <-].
  - cbn [foldl mbind option_bind].
    destruct (iadd_product _ _ _) as [Varr'|] eqn:Hadd.
    + apply IH.
      * by eapply is_square_iadd_product.
      * unfold block_Vsym in Hadd.
        destruct (block_Vtmp_tabulate2 Vpot l) as [f Hf]. rewrite Hf in Hadd.
        by eapply is_symmetric_iadd_product.
    + by rewrite foldl_bind_None.
Qed.

Lemma sum_back_transpose (D : mat T) (Vpot : VBase T) bs (M : mat T) :
  (forall x y : T, add x y = add y x) ->
  sum_back Vpot (np_zeros (length D) (length D)) bs = Some M ->
  is_square (length D) M /\ np_transpose M = M.
Proof.
  intros Hcomm Hsum.
  apply (sum_back_symmetric (length D)) in Hsum as [Hsq Hsym]; [|done|..].
  - split; [done|]. by apply (np_transpose_symmetric (length D)).
  - apply is_square_np_zeros.
  - intros i j Hi Hj. by rewrite !getitem_np_zeros.
Qed.

(** C5: the potential matrix that [compute_vv10] returns equals its
    transpose, whatever the density matrix, the grid and the functional
    are, index lists with repeated entries included.  The proof needs of the
    arithmetic only that addition commutes, which holds for the reals and
    for binary64. *)
Theorem compute_vv10_symmetric (D : mat T) (Vpot : VBase T) (e : T) (M : mat T) :
  (forall x y : T, add x y = add y x) ->
  compute_vv10 D Vpot = Some (e, M) ->
  is_square (length D) M /\ np_transpose M = M.
Proof.
  intros Hcomm. unfold compute_vv10. rewrite outer_loop_unfold.
  destruct (sum_back _ _ _) as [Varr|] eqn:Hsum; [|done].
  cbn. intros [= _ <-]. by apply (sum_back_transpose D Vpot (blocks Vpot)).
Qed.

End Symmetric.

Lemma compute_vv10_symmetric_witness :
  exists e M, compute_vv10 [[1]] he_Vpot = Some (e, M) /\ np_transpose M = M.
Proof.
  destruct (compute_vv10_defined [[1]] he_Vpot) as (e & M & Hrun).
  { repeat constructor. }
  exists e, M. split; [exact Hrun|].
  exact (proj2 (compute_vv10_symmetric [[1]] he_Vpot e M Rplus_comm Hrun)).
Defined.

(* addition commutes in binary64: the matrix is symmetric in double
   precision as well, place by place, NaN included *)
Lemma b64_add_comm (x y : spec_float) :
  SFadd b64_prec b64_emax x y = SFadd b64_prec b64_emax y x.
Proof.
  destruct x as [sx|sx| |sx mx ex], y as [sy|sy| |sy my ey]; try done;
    try (by destruct sx, sy).
  cbn. by rewrite Z.min_comm, Z.add_comm.
Qed.

(** In binary64 the matrix that [compute_vv10] returns is its own
    transpose, bit for bit, whatever the grid, the functional and the
    [pow] of the C library return, NaN and infinities included: each entry
    is built from [Vtmp + Vtmp.T], and the rounded addition commutes. *)
Lemma compute_vv10_symmetric_binary64 libm_pow (D : mat spec_float)
    (Vpot : VBase spec_float) (e : spec_float) (M : mat spec_float) :
  @compute_vv10 _ (binary64 libm_pow) D Vpot = Some (e, M) ->
  @np_transpose _ (binary64 libm_pow) M = M.
Proof.
  unfold compute_vv10. rewrite outer_loop_unfold.
  destruct (sum_back _ _ _) as [Varr|] eqn:Hsum; [|done].
  cbn. intros [= _ <-].
  by apply (@sum_back_transpose _ (binary64 libm_pow) D Vpot (blocks Vpot) Varr
              b64_add_comm).
Qed.

(** ** The energy *)

Section Energy.

Ltac length_norm :=
  repeat (rewrite length_fmap || rewrite length_zip_with || rewrite length_take).

Lemma pair_kernel_length n
    (l_x l_y l_z l_W0 l_kappa r_x r_y r_z r_w r_rho r_W0 r_kappa : list R)
    (phi : list R * list R * list R) :
  length l_x = n -> length l_y = n -> length l_z = n ->
  length l_W0 = n -> length l_kappa = n ->
  length phi.1.1 = n /\ length phi.1.2 = n /\ length phi.2 = n ->
  let phi' :=
    pair_kernel l_x l_y l_z l_W0 l_kappa r_x r_y r_z r_w r_rho r_W0 r_kappa phi in
  length phi'.1.1 = n /\ length phi'.1.2 = n /\ length phi'.2 = n.
Proof.
  destruct phi as [[pk pu] pw]. cbn [fst snd]. intros Hx Hy Hz HW Hk (Hpk & Hpu & Hpw).
  unfold pair_kernel, np_sum_axis1, build_F_W, build_F_U, build_F_kernal,
    build_gp, build_g, distance_matrix, mmap2, mmap, op_col, col_op, op_row,
    row_op, outer, amap2, amap.
  cbn [fst snd]. length_norm. lia.
Qed.

Lemma block_phi_length (Vpot : VBase R) (b : BlockOPoints R) :
  block_shape Vpot b ->
  let n := length (grid_w b) in
  length (block_rho Vpot b) = n /\
  length (block_phi Vpot b).1.1 = n /\
  length (block_phi Vpot b).1.2 = n /\
  length (block_phi Vpot b).2 = n.
Proof.
  intros (Hx & Hy & Hz & Hrho & Hgamma & _). cbv zeta.
  assert (length (block_rho Vpot b) = length (grid_w b)) as Hlr.
  { unfold block_rho. rewrite length_take. lia. }
  assert (length (block_gamma Vpot b) = length (grid_w b)) as Hlg.
  { unfold block_gamma. rewrite length_take. lia. }
  split; [done|]. unfold block_phi.
  destruct (kernel_length _ _ _ Hlr Hlg) as [HW Hk].
  destruct (compute_vv10_kernel _ _) as [l_W0 l_kappa]. cbn [fst snd] in HW, Hk.
  assert (forall bs phi,
    length phi.1.1 = length (grid_w b) /\ length phi.1.2 = length (grid_w b)
      /\ length phi.2 = length (grid_w b) ->
    let phi' :=
      foldl (inner_block Vpot (grid_x b) (grid_y b) (grid_z b) l_W0 l_kappa) phi bs in
    length phi'.1.1 = length (grid_w b) /\ length phi'.1.2 = length (grid_w b)
      /\ length phi'.2 = length (grid_w b)) as Hfold.
  { induction bs as [|r bs IH]; intros phi Hphi; [done|].
    cbn [foldl]. apply IH. unfold inner_block.
    destruct (compute_vv10_kernel _ _) as [r_W0 r_kappa].
    by apply pair_kernel_length. }
  apply Hfold. cbn [fst snd]. unfold np_zeros_like. by rewrite length_fmap.
Qed.

Lemma foldl_Rplus {A} (f : A -> R) (e0 : R) (bs : list A) :
  foldl (fun e b => (e + f b)%A) e0 bs = e0 + Rsum (f <$> bs).
Proof.
  revert e0. induction bs as [|b bs IH]; intros e0; cbn [foldl fmap list_fmap Rsum foldr].
  - lra.
  - rewrite IH. arith_unfold. fold (Rsum (f <$> bs)). lra.
Qed.

Lemma np_vdot_sum n (a b : list R) :
  length a = n -> length b = n ->
  np_vdot a b = big_sum n (fun i => a.[i] * b.[i]).
Proof.
  intros. unfold np_vdot. tabulate_array a. tabulate_array b.
  by rewrite amap2_tabulate, np_sum_big_sum.
Qed.

Lemma block_vv10_e_sum n (l_w l_rho phi_kernel : list R) :
  length l_w = n -> length l_rho = n -> length phi_kernel = n ->
  block_vv10_e l_w l_rho phi_kernel
  = big_sum n (fun i => l_w.[i] * l_rho.[i] * (beta + 0.5 * phi_kernel.[i])).
Proof.
  intros. unfold block_vv10_e.
  tabulate_array l_w. tabulate_array l_rho. tabulate_array phi_kernel.
  tabulate_norm. rewrite np_sum_big_sum. apply big_sum_ext. intros i Hi.
  rewrite coef_beta_value. arith_unfold.
  replace (Q2R 0.5) with 0.5 by (lit_unfold; lra). done.
Qed.

Lemma block_xc_e_sum (Vpot : VBase R) (b : BlockOPoints R) :
  block_shape Vpot b -> block_xc_e Vpot b = semilocal_energy Vpot b.
Proof.
  intros (_ & _ & _ & _ & _ & HV). unfold block_xc_e, semilocal_energy.
  rewrite (np_vdot_sum (length (grid_w b))); [|done|rewrite length_take; lia].
  apply big_sum_ext. intros i Hi. f_equal.
  rewrite !nth_lookup. by rewrite lookup_take_lt.
Qed.

Lemma block_nl_e_sum (Vpot : VBase R) (b : BlockOPoints R) :
  block_shape Vpot b -> block_nl_e Vpot b = nonlocal_energy Vpot b.
Proof.
  intros Hshape. destruct (block_phi_length Vpot b Hshape) as (Hrho & Hphi & _).
  unfold block_nl_e, nonlocal_energy. by apply block_vv10_e_sum.
Qed.

(** C4: every outer block adds [sum_i w_i rho_i (beta + 0.5 phi_kernel_i)]
    to the non-local energy, where [beta = (1/32) (3 / B^2)^(3/4)], and
    [compute_vv10] returns the semilocal energy (the weights dotted with the
    energy density of the functional, summed over the blocks) plus the sum
    of these contributions over the outer blocks. *)
Theorem compute_vv10_energy (D : mat R) (Vpot : VBase R) :
  Forall (block_shape Vpot) (blocks Vpot) ->
  Forall
    (fun b => Forall (fun p => (p < length D)%nat) (functions_local_to_global b))
    (blocks Vpot) ->
  coef_beta = 1 / 32 * Rpower (3 / 5.9 ^ 2) (3 / 4) /\
  (forall b, b ∈ blocks Vpot ->
     block_nl_e Vpot b
     = big_sum (length (grid_w b))
         (fun i =>
            (grid_w b).[i] * (block_rho Vpot b).[i]
            * (coef_beta + 0.5 * (block_phi Vpot b).1.1.[i]))) /\
  exists M,
    compute_vv10 D Vpot
    = Some (Rsum (semilocal_energy Vpot <$> blocks Vpot)
            + Rsum (nonlocal_energy Vpot <$> blocks Vpot), M).
Proof.
  intros Hshape Hidx. split; [apply coef_beta_value|]. split.
  - intros b Hb. rewrite Forall_forall in Hshape.
    rewrite (block_nl_e_sum Vpot b) by by apply Hshape.
    by rewrite coef_beta_value.
  - unfold compute_vv10. rewrite outer_loop_unfold.
    destruct (proj2 (sum_back_is_Some (length D) Vpot
                (np_zeros (length D) (length D)) (blocks Vpot)
                (length_np_zeros _ _)) Hidx) as [M ->].
    exists M. cbn [mbind option_bind]. do 2 f_equal.
    rewrite !foldl_Rplus. arith_unfold.
    replace (Q2R 0.0) with 0 by (lit_unfold; lra).
    rewrite !Rplus_0_l. f_equal; f_equal.
    + apply Forall_fmap_ext_1. eapply Forall_impl; [exact Hshape|].
      intros b Hb. by apply block_xc_e_sum.
    + apply Forall_fmap_ext_1. eapply Forall_impl; [exact Hshape|].
      intros b Hb. by apply block_nl_e_sum.
Qed.

Lemma compute_vv10_energy_witness :
  exists M,
    compute_vv10 [[1]] he_Vpot
    = Some (Rsum (semilocal_energy he_Vpot <$> blocks he_Vpot)
            + Rsum (nonlocal_energy he_Vpot <$> blocks he_Vpot), M).
Proof.
  refine (proj2 (proj2 (compute_vv10_energy [[1]] he_Vpot _ _)));
    repeat constructor.
Defined.

End Energy.

(** ** The order of the blocks *)

Section BlockOrder.

Lemma foldl_permutation {A B} (f : A -> B -> A) (a : A) (l l' : list B) :
  (forall a x y, f (f a x) y = f (f a y) x) ->
  l ≡ₚ l' -> foldl f a l = foldl f a l'.
Proof.
  intros Hcomm Hperm. revert a.
  induction Hperm as [|x l l' _ IH|x y l|l l' l'' _ IH1 _ IH2]; intros a; cbn.
  - done.
  - apply IH.
  - by rewrite Hcomm.
  - by rewrite IH1.
Qed.

Lemma zip_with_Rplus_swap (p a b : list R) :
  zip_with Rplus (zip_with Rplus p a) b = zip_with Rplus (zip_with Rplus p b) a.
Proof.
  revert a b. induction p as [|x p IH]; intros [|y a] [|z b]; cbn; try done.
  f_equal; [lra|apply IH].
Qed.

Lemma inner_block_swap (Vpot : VBase R) l_x l_y l_z l_W0 l_kappa phi r1 r2 :
  inner_block Vpot l_x l_y l_z l_W0 l_kappa
    (inner_block Vpot l_x l_y l_z l_W0 l_kappa phi r1) r2
  = inner_block Vpot l_x l_y l_z l_W0 l_kappa
      (inner_block Vpot l_x l_y l_z l_W0 l_kappa phi r2) r1.
Proof.
  unfold inner_block.
  destruct (compute_vv10_kernel _ _) as [W1 k1], (compute_vv10_kernel _ _) as [W2 k2].
  destruct phi as [[pk pu] pw]. unfold pair_kernel, amap2. arith_unfold.
  f_equal; [f_equal|]; apply zip_with_Rplus_swap.
Qed.

Lemma block_phi_permutation (Vpot : VBase R) bs b :
  blocks Vpot ≡ₚ bs -> block_phi (with_blocks Vpot bs) b = block_phi Vpot b.
Proof.
  intros Hperm. unfold block_phi, block_rho, block_gamma. cbn [with_blocks point_values blocks].
  destruct (compute_vv10_kernel _ _) as [l_W0 l_kappa].
  symmetry. apply foldl_permutation; [|done].
  intros phi r1 r2. apply inner_block_swap.
Qed.

Lemma Rsum_permutation (l l' : list R) : l ≡ₚ l' -> Rsum l = Rsum l'.
Proof.
  assert (forall x k, Rsum (x :: k) = x + Rsum k) as Hcons by done.
  induction 1 as [|x l l' _ IH|x y l|l l' l'' _ IH1 _ IH2];
    rewrite ?Hcons; lra.
Qed.

(** C8: the total non-local energy that the double loop over the blocks
    accumulates is the same for every order in which the blocks are
    enumerated (the same order serves the outer and the inner loop), in
    exact arithmetic; when an index of a block lies outside the matrix the
    loop fails for every order. *)
Theorem nonlocal_energy_block_order
    (D : mat R) (Vpot : VBase R) (bs : list (BlockOPoints R)) :
  blocks Vpot ≡ₚ bs ->
  vv10_e_of <$> outer_loop D (with_blocks Vpot bs)
  = vv10_e_of <$> outer_loop D Vpot.
Proof.
  intros Hperm. rewrite !outer_loop_unfold. cbn [with_blocks blocks].
  pose proof (sum_back_is_Some (length D) Vpot
                (np_zeros (length D) (length D)) (blocks Vpot)
                (length_np_zeros _ _)) as Hdef.
  pose proof (sum_back_is_Some (length D) (with_blocks Vpot bs)
                (np_zeros (length D) (length D)) bs
                (length_np_zeros _ _)) as Hdef'.
  assert (Forall
            (fun b => Forall (fun p => (p < length D)%nat) (functions_local_to_global b))
            (blocks Vpot)
          <-> Forall
                (fun b => Forall (fun p => (p < length D)%nat) (functions_local_to_global b))
                bs) as Hidx by (by rewrite Hperm).
  rewrite <- Hidx, <- Hdef in Hdef'. clear Hidx Hdef.
  assert (foldl (fun e l_grid => (e + block_nl_e (with_blocks Vpot bs) l_grid)%A)
            (lit 0.0) bs
          = foldl (fun e l_grid => (e + block_nl_e Vpot l_grid)%A)
              (lit 0.0) (blocks Vpot)) as Henergy.
  { rewrite !foldl_Rplus. f_equal.
    transitivity (Rsum (block_nl_e Vpot <$> bs)).
    - f_equal. apply list_fmap_ext. intros _ b _. unfold block_nl_e.
      by rewrite block_phi_permutation.
    - apply Rsum_permutation. by rewrite Hperm. }
  destruct (sum_back Vpot _ (blocks Vpot)) as [M|],
           (sum_back (with_blocks Vpot bs) _ bs) as [M'|];
    cbn [mbind option_bind fmap option_fmap option_map].
  - unfold vv10_e_of. cbn [fst snd]. by rewrite Henergy.
  - destruct Hdef' as [_ Hdef']. by destruct Hdef' as [? [=]].
  - destruct Hdef' as [Hdef' _]. by destruct Hdef' as [? [=]].
  - done.
Qed.

Lemma nonlocal_energy_block_order_witness :
  vv10_e_of <$> outer_loop [[1]] (with_blocks he_Vpot [he_block 5; he_block (-5)])
  = vv10_e_of <$> outer_loop [[1]] he_Vpot.
Proof.
  apply (nonlocal_energy_block_order [[1]] he_Vpot [he_block 5; he_block (-5)]).
  apply perm_swap.
Defined.

End BlockOrder.

(** ** A grid of one point *)

Section SinglePoint.





End SinglePoint.

(** ** The objects of a call: what is read, what is written *)

Section ObjectsRun.
Context {T : Type} `{Arith T}.
Local Open Scope arith_scope.

Ltac py_step :=
  unfold mbind, mret, Py_bind, Py_ret, py_bind, py_ret;
  cbn [py_compute_points py_point_values py_basis_values arrays tables fst snd].

Lemma py_bind_run {A B} (m : Py T A) (k : A -> Py T B) s :
  (m ≫= k) s = match m s with Some (a, s') => k a s' | None => None end.
Proof. done. Qed.

Lemma py_inner_block_run (Vpot : VBase T) l_x l_y l_z l_W0 l_kappa phi r s :
  py_inner_block Vpot l_x l_y l_z l_W0 l_kappa phi r s
  = Some (inner_block Vpot l_x l_y l_z l_W0 l_kappa phi r,
          {| arrays := arrays s;
             tables := (point_values Vpot r, basis_values Vpot r) |}).
Proof.
  unfold py_inner_block, inner_block. py_step.
  by destruct (compute_vv10_kernel _ _) as [r_W0 r_kappa].
Qed.

Lemma py_for_inner_block (Vpot : VBase T) l_x l_y l_z l_W0 l_kappa bs phi s :
  exists t,
    py_for (py_inner_block Vpot l_x l_y l_z l_W0 l_kappa) phi bs s
    = Some (foldl (inner_block Vpot l_x l_y l_z l_W0 l_kappa) phi bs,
            {| arrays := arrays s; tables := t |}).
Proof.
  revert phi s. induction bs as [|r bs IH]; intros phi s.
  - exists (tables s). by destruct s.
  - cbn [py_for foldl]. rewrite py_bind_run, py_inner_block_run.
    edestruct IH as [t Ht]. exists t. rewrite Ht. done.
Qed.

Lemma py_outer_block_run (Vpot : VBase T) Varr M xc_e vv10_e l_grid s :
  arrays s !! Varr = Some M ->
  py_outer_block Vpot Varr (xc_e, vv10_e) l_grid s
  = match outer_block Vpot (xc_e, vv10_e, M) l_grid with
    | Some (xc_e', vv10_e', M') =>
        Some ((xc_e', vv10_e'),
              {| arrays := <[Varr := M']> (arrays s);
                 tables := (point_values Vpot l_grid, basis_values Vpot l_grid) |})
    | None => None
    end.
Proof.
  intros HVarr. unfold py_outer_block, outer_block. py_step.
  destruct (compute_vv10_kernel _ _) as [l_W0 l_kappa]. py_step.
  edestruct py_for_inner_block as [t ->]. py_step.
  destruct (foldl _ _ _) as [[phi_kernel phi_U] phi_W]. py_step.
  destruct (perturb_derivatives _ _ _ _ _ _ _ _ _) as [v_rho v_gamma]. py_step.
  unfold read_array at 1. py_step. rewrite HVarr.
  destruct (iadd_product _ _ _) as [M'|]; [|done].
  unfold write_array. py_step. by rewrite HVarr.
Qed.

Lemma py_for_outer_block (Vpot : VBase T) Varr bs M xc_e vv10_e s :
  arrays s !! Varr = Some M ->
  match
    foldl (fun st l_grid => st ≫= fun st => outer_block Vpot st l_grid)
      (Some (xc_e, vv10_e, M)) bs
  with
  | Some (xc_e', vv10_e', M') =>
      exists t,
        py_for (py_outer_block Vpot Varr) (xc_e, vv10_e) bs s
        = Some ((xc_e', vv10_e'),
                {| arrays := <[Varr := M']> (arrays s); tables := t |})
  | None => py_for (py_outer_block Vpot Varr) (xc_e, vv10_e) bs s = None
  end.
Proof.
  revert M xc_e vv10_e s. induction bs as [|l bs IH]; intros M xc_e vv10_e s HVarr.
  - cbn. exists (tables s). rewrite insert_id by done. by destruct s.
  - cbn [py_for foldl mbind option_bind]. rewrite py_bind_run.
    rewrite (py_outer_block_run Vpot Varr M) by done.
    destruct (outer_block Vpot (xc_e, vv10_e, M) l) as [[[xc_e' vv10_e'] M']|].
    + specialize (IH M' xc_e' vv10_e'
        {| arrays := <[Varr := M']> (arrays s);
           tables := (point_values Vpot l, basis_values Vpot l) |}).
      cbn [arrays] in IH. specialize (IH (lookup_insert_eq _ _ _)).
      destruct (foldl _ _ bs) as [[[xc_e'' vv10_e''] M'']|]; [|done].
      by rewrite insert_insert_eq in IH.
    + by rewrite foldl_bind_None.
Qed.

Lemma read_array_run (l : positive) (M : mat T) (s : PyState T) :
  arrays s !! l = Some M -> read_array l s = Some (M, s).
Proof. intros Hl. unfold read_array. by rewrite Hl. Qed.

Lemma new_array_run (M : mat T) (s : PyState T) :
  new_array M s
  = Some (fresh (dom (arrays s)),
          {| arrays := <[fresh (dom (arrays s)) := M]> (arrays s);
             tables := tables s |}).
Proof. done. Qed.

(* the call, from a store that holds [d] at [D] *)
Lemma py_compute_vv10_run (D : positive) (Vpot : VBase T) (s : PyState T) (d : mat T) :
  arrays s !! D = Some d ->
  match compute_vv10 d Vpot with
  | Some (e, M) =>
      exists Varr s',
        py_compute_vv10 D Vpot s = Some ((e, Varr), s') /\
        (Varr ∉ dom (arrays s)) /\
        arrays s' !! Varr = Some M /\
        (forall l, l ∈ dom (arrays s) -> arrays s' !! l = arrays s !! l)
  | None => py_compute_vv10 D Vpot s = None
  end.
Proof.
  intros HD. unfold py_compute_vv10, compute_vv10, outer_loop. cbv zeta.
  rewrite py_bind_run, (read_array_run D d s HD).
  rewrite py_bind_run, new_array_run.
  set (Varr := fresh (dom (arrays s))).
  assert (Varr ∉ dom (arrays s)) as HVarr by apply is_fresh.
  assert (Varr <> D) as HVD.
  { intros ->. apply HVarr. apply elem_of_dom. by eexists. }
  set (s0 := {| arrays := <[Varr := _]> _; tables := tables s |}).
  assert (arrays s0 !! D = Some d) as HD0.
  { subst s0. cbn [arrays]. by rewrite lookup_insert_ne. }
  rewrite py_bind_run, (read_array_run D d s0 HD0).
  rewrite py_bind_run, new_array_run.
  set (tD := fresh (dom (arrays s0))).
  assert (tD ∉ dom (arrays s0)) as HtD by apply is_fresh.
  subst s0. cbn [arrays tables] in *. rewrite dom_insert_L in HtD.
  set (s1 := {| arrays := <[tD := _]> _; tables := tables s |}).
  assert (arrays s1 !! Varr = Some (np_zeros (length d) (length d))) as HV1.
  { subst s1. cbn [arrays]. rewrite lookup_insert_ne by set_solver.
    by rewrite lookup_insert_eq. }
  pose proof (py_for_outer_block Vpot Varr (blocks Vpot)
                (np_zeros (length d) (length d)) (lit 0.0) (lit 0.0) s1 HV1) as Hloop.
  rewrite py_bind_run.
  destruct (foldl _ _ (blocks Vpot)) as [[[xc_e vv10_e] M]|].
  - destruct Hloop as [t Hloop]. rewrite Hloop.
    cbn [mbind option_bind]. eexists Varr, _. split; [reflexivity|].
    cbn [arrays]. split; [done|]. split.
    + by rewrite lookup_insert_eq.
    + intros l Hl. subst s1. cbn [arrays].
      rewrite !lookup_insert_ne; [done|set_solver..].
  - by rewrite Hloop.
Qed.

(** C10: a call of [compute_vv10] leaves the density matrix as it was, and
    every other array of the caller too; it reads [D] for its shape and for
    the copy [tD]; the matrix it returns is an array object that did not
    exist before the call, holding the matrix of the functional model, and
    the energy is the one of the functional model. *)
Theorem compute_vv10_frame (D : positive) (Vpot : VBase T) (s s' : PyState T)
    (d : mat T) (e : T) (Varr : positive) :
  arrays s !! D = Some d ->
  py_compute_vv10 D Vpot s = Some ((e, Varr), s') ->
  arrays s' !! D = Some d /\
  (forall l, l ∈ dom (arrays s) -> arrays s' !! l = arrays s !! l) /\
  (Varr ∉ dom (arrays s)) /\ Varr <> D /\
  exists M, compute_vv10 d Vpot = Some (e, M) /\ arrays s' !! Varr = Some M.
Proof.
  intros HD Hrun. pose proof (py_compute_vv10_run D Vpot s d HD) as Hspec.
  destruct (compute_vv10 d Vpot) as [[e' M]|]; [|congruence].
  destruct Hspec as (Varr' & s'' & Hrun' & Hfresh & HM & Hframe).
  rewrite Hrun in Hrun'. injection Hrun' as -> -> ->.
  assert (D ∈ dom (arrays s)) as HDdom by (apply elem_of_dom; by eexists).
  split; [by rewrite Hframe|]. split; [done|]. split; [done|].
  split; [by intros ->|]. by exists M.
Qed.

End ObjectsRun.

Lemma compute_vv10_frame_witness :
  exists e Varr s',
    py_compute_vv10 1%positive he_Vpot he_state = Some ((e, Varr), s') /\
    arrays s' !! 1%positive = Some [[1]] /\ Varr <> 1%positive.
Proof.
  assert (arrays he_state !! 1%positive = Some [[1]]) as HD
    by apply lookup_singleton_eq.
  pose proof (py_compute_vv10_run 1%positive he_Vpot he_state [[1]] HD) as Hrun.
  destruct (compute_vv10_defined [[1]] he_Vpot) as (e & M & Hvalue).
  { repeat constructor. }
  rewrite Hvalue in Hrun. destruct Hrun as (Varr & s' & Hrun & _).
  exists e, Varr, s'. split; [exact Hrun|].
  destruct (compute_vv10_frame 1%positive he_Vpot he_state s' [[1]] e Varr HD Hrun)
    as (HD' & _ & _ & Hne & _).
  by split.
Defined.

(** ** The kernel evaluator in binary64, at a point of zero density *)

Section ZeroDensity.
Variable libm_pow : spec_float -> spec_float -> spec_float.

(* the instance computes what double arithmetic computes: for the densities
   0.3 and 1.0 and the squared gradients 2.0 and 0.5 the doubles
   2.4185180698164133 and 2.0472213375173656 *)
Example compute_vv10_kernel_binary64 :
  (@compute_vv10_kernel _ (binary64 libm_pow)
     [b64_lit 0.3; b64_lit 1.0] [b64_lit 2.0; b64_lit 0.5]).1
  = [S754_finite false 5446018539007005 (-51);
     S754_finite false 4609932626394068 (-51)].
Proof. by vm_compute. Qed.

(* rounding is outside the exact instance.  A positive density can be so
   small that its square is below the least positive double and rounds to
   zero: for rho = 2^-600 and gamma = 0 the quotient is 0.0 / 0.0 and W0 is
   NaN; for gamma = 1 the quotient and W0 are +inf *)
Example compute_vv10_kernel_binary64_underflow :
  let rho := S754_finite false 4503599627370496 (-652) in
  valid_binary b64_prec b64_emax rho = true /\
  SFltb (b64_of_Z 0) rho = true /\
  (@compute_vv10_kernel _ (binary64 libm_pow) [rho; rho] [b64_of_Z 0; b64_of_Z 1]).1
  = [S754_nan; S754_infinity false].
Proof. by vm_compute. Qed.

Lemma b64_zero_density_quotient (s : bool) (g : spec_float) :
  b64_is_inf_or_nan
    (SFdiv b64_prec b64_emax g
       (SFmul b64_prec b64_emax (S754_zero s) (S754_zero s))) = true.
Proof. by destruct g, s. Qed.

(** C9: when the density is zero at a point of the block (either sign of
    zero, any [gamma], NaN included), the kernel evaluator still returns
    both arrays, the quotient [gamma / (rho * rho)] at that point is an
    infinity or NaN, and so is the [W0] it returns there: namely
    [+inf], or NaN when [gamma] is zero or NaN. *)
Theorem compute_vv10_kernel_zero_density
    (rho gamma : list spec_float) (i : nat) (s : bool) (g : spec_float) :
  rho !! i = Some (S754_zero s) -> gamma !! i = Some g ->
  let '(W0, kappa) := @compute_vv10_kernel _ (binary64 libm_pow) rho gamma in
  length W0 = length rho `min` length gamma /\
  length kappa = length rho /\
  b64_is_inf_or_nan
    (SFdiv b64_prec b64_emax g
       (SFmul b64_prec b64_emax (S754_zero s) (S754_zero s))) = true /\
  (exists w0, W0 !! i = Some w0 /\ b64_is_inf_or_nan w0 = true /\
     w0 = match g with
          | S754_zero _ | S754_nan => S754_nan
          | _ => S754_infinity false
          end) /\
  (exists k, kappa !! i = Some k).
Proof.
  intros Hr Hg. unfold compute_vv10_kernel, amap, amap2.
  rewrite !length_fmap, !length_zip_with, !length_fmap, !length_zip_with.
  split; [lia|]. split; [done|]. split; [apply b64_zero_density_quotient|].
  lookup_unfold. rewrite Hr, Hg.
  cbn [mbind option_bind fmap option_fmap option_map].
  split; [|by eexists].
  eexists. split; [reflexivity|].
  destruct g as [sg|sg| |sg mg eg], s; try destruct sg; by vm_compute.
Qed.

End ZeroDensity.

Lemma compute_vv10_kernel_zero_density_witness :
  exists w0,
    (@compute_vv10_kernel _ (binary64 (fun x _ => x))
       [S754_zero false] [b64_of_Z 1]).1 !! 0%nat = Some w0 /\
    b64_is_inf_or_nan w0 = true.
Proof.
  pose proof (compute_vv10_kernel_zero_density (fun x _ => x)
                [S754_zero false] [b64_of_Z 1]
                0 false (b64_of_Z 1) eq_refl eq_refl) as Hzero.
  destruct (compute_vv10_kernel _ _) as [W0 kappa].
  destruct Hzero as (_ & _ & _ & (w0 & Hw0 & Hinf & _) & _). by exists w0.
Defined.

(* ================================================================== *)
(** * Further properties of the code *)

(** ** When the call returns, and the shape of what it returns *)

Section Returns.
Context {T : Type} `{Arith T}.

Lemma sum_back_is_square n (Vpot : VBase T) (Varr : mat T) bs M :
  is_square n Varr -> sum_back Vpot Varr bs = Some M -> is_square n M.
Proof.
  unfold sum_back. revert Varr. induction bs as [|l bs IH]; intros Varr Hsq.
  - by intros [= <-].
  - cbn [foldl mbind option_bind].
    destruct (iadd_product _ _ _) as [Varr'|] eqn:Hadd.
    + apply IH. by eapply is_square_iadd_product.
    + by rewrite foldl_bind_None.
Qed.


End Returns.

(** ** The sum into the potential matrix, block after block *)

Lemma iadd_product_accumulates_witness :
  exists M,
    iadd_product [[1; 2]; [3; 4]] [1%nat; 0%nat]
      (tabulate2 2 2 (fun a b => INR a + 10 * INR b)) = Some M /\
    getitem M 1 0 = getitem [[1; 2]; [3; 4]] 1 0 + (INR 0 + 10 * INR 1).
Proof.
  eexists. split; [reflexivity|].
  refine (proj1 (iadd_product_accumulates 2 [[1; 2]; [3; 4]] [1%nat; 0%nat]
                   (fun a b => INR a + 10 * INR b) _ _ _ eq_refl)
            0%nat 1%nat 1%nat 0%nat eq_refl eq_refl).
  - split; [done|]. by repeat constructor.
  - apply NoDup_cons. split; [by intros ?%list_elem_of_singleton|apply NoDup_singleton].
Defined.

Section ScatterSum.

Lemma getitem_iadd_product n (Varr : mat R) lpos (f : nat -> nat -> R) M i j :
  is_square n Varr -> (i < n)%nat -> (j < n)%nat ->
  iadd_product Varr lpos (tabulate2 (length lpos) (length lpos) f) = Some M ->
  getitem M i j
  = getitem Varr i j
    + scatter_term lpos (tabulate2 (length lpos) (length lpos) f) i j.
Proof.
  intros Hsq Hi Hj ->%iadd_product_Some.
  rewrite getitem_product_tabulate2, mmap2_tabulate2.
  rewrite (getitem_setitem_product n) by done. unfold scatter_term.
  destruct (last_index i lpos) as [a|] eqn:Ha; [|lra].
  destruct (last_index j lpos) as [b|] eqn:Hb; [|lra].
  rewrite getitem_tabulate2 by by eapply last_index_lt.
  apply last_index_lookup in Ha, Hb.
  by rewrite (nth_lookup_Some _ _ _ _ Ha), (nth_lookup_Some _ _ _ _ Hb).
Qed.

Lemma block_Vsym_tabulate2 (Vpot : VBase R) (l : BlockOPoints R) :
  exists f,
    block_Vsym Vpot l
    = tabulate2 (length (functions_local_to_global l))
        (length (functions_local_to_global l)) f.
Proof.
  unfold block_Vsym. destruct (block_Vtmp_tabulate2 Vpot l) as [f ->].
  rewrite np_transpose_tabulate2, mmap2_tabulate2. by eexists.
Qed.

Lemma getitem_sum_back n (Vpot : VBase R) (Varr : mat R) bs M i j :
  is_square n Varr -> (i < n)%nat -> (j < n)%nat ->
  sum_back Vpot Varr bs = Some M ->
  getitem M i j
  = getitem Varr i j
    + Rsum ((fun b => scatter_term (functions_local_to_global b)
                        (block_Vsym Vpot b) i j) <$> bs).
Proof.
  intros Hsq Hi Hj. unfold sum_back. revert Varr Hsq.
  induction bs as [|l bs IH]; intros Varr Hsq.
  - intros [= <-]. cbn. lra.
  - cbn [foldl mbind option_bind].
    destruct (iadd_product _ _ _) as [Varr'|] eqn:Hadd.
    + intros Hrest. rewrite (IH Varr') by (try done; by eapply is_square_iadd_product).
      cbn [fmap list_fmap Rsum foldr]. change (foldr Rplus 0 ?k) with (Rsum k).
      destruct (block_Vsym_tabulate2 Vpot l) as [f Hf]. rewrite Hf in Hadd |- *.
      rewrite (getitem_iadd_product n Varr _ _ Varr' i j Hsq Hi Hj Hadd). lra.
    + by rewrite foldl_bind_None.
Qed.

(** Every place of the matrix that [compute_vv10] returns is the sum, over
    the blocks, of what the block adds there: contributions of blocks that
    share basis functions add up, none overwrites another. *)
Theorem compute_vv10_matrix_entries (D : mat R) (Vpot : VBase R) (e : R) (M : mat R)
    (i j : nat) :
  compute_vv10 D Vpot = Some (e, M) -> (i < length D)%nat -> (j < length D)%nat ->
  getitem M i j
  = Rsum ((fun b => scatter_term (functions_local_to_global b)
                      (block_Vsym Vpot b) i j) <$> blocks Vpot).
Proof.
  unfold compute_vv10. rewrite outer_loop_unfold.
  destruct (sum_back _ _ _) as [Varr|] eqn:Hsum; [|done].
  cbn [mbind option_bind]. intros [= _ <-] Hi Hj.
  rewrite (getitem_sum_back (length D) Vpot _ _ _ i j (is_square_np_zeros _) Hi Hj Hsum).
  rewrite getitem_np_zeros by done. arith_unfold. lit_unfold. lra.
Qed.

End ScatterSum.

Lemma compute_vv10_matrix_entries_witness :
  exists e M,
    compute_vv10 [[1]] he_Vpot = Some (e, M) /\
    getitem M 0 0
    = Rsum ((fun b => scatter_term (functions_local_to_global b)
                        (block_Vsym he_Vpot b) 0 0) <$> blocks he_Vpot).
Proof.
  destruct (compute_vv10_defined [[1]] he_Vpot) as (e & M & Hrun).
  { repeat constructor. }
  exists e, M. split; [exact Hrun|].
  exact (compute_vv10_matrix_entries [[1]] he_Vpot e M 0 0 Hrun
           (Nat.lt_0_succ 0) (Nat.lt_0_succ 0)).
Defined.

Section WholeOrder.

Lemma block_Vsym_permutation (Vpot : VBase R) bs b :
  blocks Vpot ≡ₚ bs -> block_Vsym (with_blocks Vpot bs) b = block_Vsym Vpot b.
Proof.
  intros Hperm. unfold block_Vsym, block_Vtmp.
  by rewrite (block_phi_permutation Vpot bs b Hperm).
Qed.

(** The energy and the matrix that [compute_vv10] returns do not depend on
    the order in which the grid enumerates its blocks, in exact arithmetic;
    a call that raises does so for every order. *)
Theorem compute_vv10_block_order
    (D : mat R) (Vpot : VBase R) (bs : list (BlockOPoints R)) :
  blocks Vpot ≡ₚ bs ->
  compute_vv10 D (with_blocks Vpot bs) = compute_vv10 D Vpot.
Proof.
  intros Hperm. unfold compute_vv10. rewrite !outer_loop_unfold.
  cbn [with_blocks blocks].
  pose proof (sum_back_is_Some (length D) Vpot
                (np_zeros (length D) (length D)) (blocks Vpot)
                (length_np_zeros _ _)) as Hdef.
  pose proof (sum_back_is_Some (length D) (with_blocks Vpot bs)
                (np_zeros (length D) (length D)) bs
                (length_np_zeros _ _)) as Hdef'.
  assert (Forall
            (fun b => Forall (fun p => (p < length D)%nat) (functions_local_to_global b))
            (blocks Vpot)
          <-> Forall
                (fun b => Forall (fun p => (p < length D)%nat) (functions_local_to_global b))
                bs) as Hidx by (by rewrite Hperm).
  rewrite <- Hidx, <- Hdef in Hdef'. clear Hidx Hdef.
  destruct (sum_back Vpot _ (blocks Vpot)) as [M|] eqn:HM,
           (sum_back (with_blocks Vpot bs) _ bs) as [M'|] eqn:HM';
    cbn [mbind option_bind].
  - do 2 f_equal.
    + rewrite !foldl_Rplus. arith_unfold. f_equal; f_equal.
      * transitivity (Rsum (block_xc_e Vpot <$> bs)); [done|].
        apply Rsum_permutation. by rewrite Hperm.
      * transitivity (Rsum (block_nl_e Vpot <$> bs)).
        -- f_equal. apply list_fmap_ext. intros _ b _. unfold block_nl_e.
           by rewrite block_phi_permutation.
        -- apply Rsum_permutation. by rewrite Hperm.
    + apply (is_square_eq (length D)).
      * eapply sum_back_is_square; [apply is_square_np_zeros|exact HM'].
      * eapply sum_back_is_square; [apply is_square_np_zeros|exact HM].
      * intros i j Hi Hj.
        rewrite (getitem_sum_back (length D) _ _ _ _ i j (is_square_np_zeros _) Hi Hj HM).
        rewrite (getitem_sum_back (length D) _ _ _ _ i j (is_square_np_zeros _) Hi Hj HM').
        f_equal. cbn [with_blocks functions_local_to_global].
        transitivity
          (Rsum ((fun b => scatter_term (functions_local_to_global b)
                             (block_Vsym Vpot b) i j) <$> bs)).
        -- f_equal. apply list_fmap_ext. intros _ b _.
           by rewrite block_Vsym_permutation.
        -- apply Rsum_permutation. by rewrite Hperm.
  - destruct Hdef' as [_ Hdef']. by destruct Hdef' as [? [=]].
  - destruct Hdef' as [Hdef' _]. by destruct Hdef' as [? [=]].
  - done.
Qed.

End WholeOrder.

Lemma compute_vv10_block_order_witness :
  compute_vv10 [[1]] (with_blocks he_Vpot [he_block 5; he_block (-5)])
  = compute_vv10 [[1]] he_Vpot.
Proof.
  apply (compute_vv10_block_order [[1]] he_Vpot [he_block 5; he_block (-5)]).
  apply perm_swap.
Defined.

(** ** The derivatives of the kernel parameters *)

Section KernelDerivatives.

Lemma derivable_pt_lim_eq (f : R -> R) (x l l' : R) :
  l = l' -> derivable_pt_lim f x l -> derivable_pt_lim f x l'.
Proof. by intros ->. Qed.

Lemma kappa_of_derivative (r : R) :
  0 < r -> derivable_pt_lim kappa_of r (kappa_of r / (6 * r)).
Proof.
  intros Hr. unfold kappa_of.
  set (K := 5.9 * (3 * PI / 2) / Rpower (9 * PI) (1 / 6)).
  apply (derivable_pt_lim_eq _ _ (1 / 6 * Rpower r (1 / 6 - 1) * K)).
  - replace (1 / 6 - 1) with (1 / 6 + - (1)) by lra.
    rewrite Rpower_plus, Rpower_Ropp, Rpower_1 by done. field. lra.
  - apply (derivable_pt_lim_scal_right (fun x => Rpower x (1 / 6))).
    by apply derivable_pt_lim_power.
Qed.

Lemma W0_of_radicand_pos (r g : R) :
  0 < r -> 0 < 0.0093 * (g / r ^ 2) ^ 2 + (4 * PI / 3) * r.
Proof.
  intros Hr. pose proof PI_RGT_0. pose proof (pow2_ge_0 (g / r ^ 2)). nra.
Qed.

Lemma W0_of_derivative_gamma (r g : R) :
  0 < r ->
  derivable_pt_lim (fun g' => W0_of r g') g (0.0093 * g / (W0_of r g * r ^ 4)).
Proof.
  intros Hr. pose proof (W0_of_pos r g Hr) as HW.
  pose proof (W0_of_radicand_pos r g Hr) as Hu.
  set (u := fun g' : R => 0.0093 * (g' / r ^ 2) ^ 2 + (4 * PI / 3) * r).
  assert (derivable_pt_lim u g (2 * 0.0093 * g / r ^ 4)) as Hdu.
  { apply (derivable_pt_lim_ext
             (fun g' => (0.0093 / r ^ 4) * g' ^ 2 + (4 * PI / 3) * r)%R).
    { intros z. unfold u. field. lra. }
    apply (derivable_pt_lim_eq _ _ (0.0093 / r ^ 4 * (INR 2 * g ^ 1) + 0)).
    { simpl. field. lra. }
    apply (derivable_pt_lim_plus (fun g' => 0.0093 / r ^ 4 * g' ^ 2)
             (fun _ => (4 * PI / 3) * r)).
    - apply (derivable_pt_lim_scal (fun g' => g' ^ 2)).
      apply (derivable_pt_lim_pow g 2).
    - apply (derivable_pt_lim_const ((4 * PI / 3) * r)). }
  pose proof (derivable_pt_lim_comp u sqrt g _ _ Hdu
                (derivable_pt_lim_sqrt (u g) Hu)) as Hcomp.
  apply (derivable_pt_lim_eq _ _ _ (0.0093 * g / (W0_of r g * r ^ 4))) in Hcomp.
  - exact Hcomp.
  - change (sqrt (u g)) with (W0_of r g). field. lra.
Qed.

Lemma W0_of_derivative_rho (r g : R) :
  0 < r ->
  derivable_pt_lim (fun r' => W0_of r' g) r
    (2 / W0_of r g * (PI / 3 - 0.0093 * g ^ 2 / r ^ 5)).
Proof.
  intros Hr. pose proof (W0_of_pos r g Hr) as HW.
  pose proof (W0_of_radicand_pos r g Hr) as Hu.
  set (u := fun r' : R => 0.0093 * (g / r' ^ 2) ^ 2 + (4 * PI / 3) * r').
  assert (derivable_pt_lim u r (4 * PI / 3 - 4 * 0.0093 * g ^ 2 / r ^ 5)) as Hdu.
  { apply (derivable_pt_lim_locally_ext
             (fun r' => (0.0093 * g ^ 2) / r' ^ 4 + (4 * PI / 3) * r')%R
             u r (r / 2) (r + 1)); [lra| |].
    { intros z Hz. unfold u. field. lra. }
    apply (derivable_pt_lim_eq _ _
             ((0 * r ^ 4 - INR 4 * r ^ 3 * (0.0093 * g ^ 2)) / Rsqr (r ^ 4)
              + (4 * PI / 3) * 1)).
    { unfold Rsqr. simpl. field. lra. }
    apply (derivable_pt_lim_plus (fun r' => 0.0093 * g ^ 2 / r' ^ 4)
             (fun r' => (4 * PI / 3) * r')).
    - apply (derivable_pt_lim_div (fun _ => 0.0093 * g ^ 2) (fun r' => r' ^ 4)).
      + apply (derivable_pt_lim_const (0.0093 * g ^ 2)).
      + apply (derivable_pt_lim_pow r 4).
      + apply pow_nonzero. lra.
    - apply (derivable_pt_lim_scal id). apply derivable_pt_lim_id. }
  pose proof (derivable_pt_lim_comp u sqrt r _ _ Hdu
                (derivable_pt_lim_sqrt (u r) Hu)) as Hcomp.
  apply (derivable_pt_lim_eq _ _ _
           (2 / W0_of r g * (PI / 3 - 0.0093 * g ^ 2 / r ^ 5))) in Hcomp.
  - exact Hcomp.
  - change (sqrt (u r)) with (W0_of r g). field. lra.
Qed.

(** The arrays [kappa_dn], [w0_dgamma] and [w0_drho] that [compute_vv10]
    builds hold the derivatives of the kernel evaluator: at a point [i] of
    positive density, [kappa_dn[i]] is the derivative of [kappa[i]] in the
    density of the point, [w0_dgamma[i]] the derivative of [W0[i]] in the
    squared density gradient of the point, and [w0_drho[i]] the derivative of
    [W0[i]] in the density of the point. *)
Theorem kernel_derivatives (rho gamma : list R) (i : nat) (r g : R) :
  rho !! i = Some r -> gamma !! i = Some g -> 0 < r ->
  let W0 := (compute_vv10_kernel rho gamma).1 in
  let kappa := (compute_vv10_kernel rho gamma).2 in
  derivable_pt_lim (fun r' => (compute_vv10_kernel (<[i := r']> rho) gamma).2.[i]) r
    (build_kappa_dn kappa rho).[i] /\
  derivable_pt_lim (fun g' => (compute_vv10_kernel rho (<[i := g']> gamma)).1.[i]) g
    (build_w0_dgamma gamma W0 rho).[i] /\
  derivable_pt_lim (fun r' => (compute_vv10_kernel (<[i := r']> rho) gamma).1.[i]) r
    (build_w0_drho gamma W0 rho).[i].
Proof.
  intros Hr Hg Hpos W0 kappa.
  destruct (kernel_lookup rho gamma i r g Hr Hg Hpos) as [HW Hk].
  fold W0 in HW. fold kappa in Hk.
  assert (i < length rho)%nat as Hi by (by eapply lookup_lt_Some).
  assert (i < length gamma)%nat as Hi' by (by eapply lookup_lt_Some).
  assert (forall r', 0 < r' ->
            (compute_vv10_kernel (<[i := r']> rho) gamma).1.[i] = W0_of r' g /\
            (compute_vv10_kernel (<[i := r']> rho) gamma).2.[i] = kappa_of r')
    as Hrho.
  { intros r' Hr'.
    destruct (kernel_lookup (<[i := r']> rho) gamma i r' g) as [HW' Hk'];
      [by apply list_lookup_insert_eq|done|done|].
    by rewrite (nth_lookup_Some _ _ _ _ HW'), (nth_lookup_Some _ _ _ _ Hk'). }
  assert (forall g',
            (compute_vv10_kernel rho (<[i := g']> gamma)).1.[i] = W0_of r g')
    as Hgamma.
  { intros g'.
    destruct (kernel_lookup rho (<[i := g']> gamma) i r g') as [HW' _];
      [done|by apply list_lookup_insert_eq|done|].
    by rewrite (nth_lookup_Some _ _ _ _ HW'). }
  assert ((build_kappa_dn kappa rho).[i] = kappa_of r / (6 * r)) as ->.
  { apply nth_lookup_Some. unfold build_kappa_dn, amap, amap2. lookup_unfold.
    rewrite Hk, Hr. cbn [mbind option_bind fmap option_fmap option_map]. arith_unfold. do 2 f_equal; lit_unfold; lra. }
  assert ((build_w0_dgamma gamma W0 rho).[i] = 0.0093 * g / (W0_of r g * r ^ 4))
    as ->.
  { apply nth_lookup_Some. unfold build_w0_dgamma, amap, amap2. lookup_unfold.
    rewrite HW, Hr, Hg. cbn [mbind option_bind fmap option_fmap option_map].
    unfold coef_C. arith_unfold. rewrite (Rnp_pow_lit _ 4.0 4) by (lit_unfold; simpl; lra).
    do 3 f_equal; lit_unfold; lra. }
  assert ((build_w0_drho gamma W0 rho).[i]
          = 2 / W0_of r g * (PI / 3 - 0.0093 * g ^ 2 / r ^ 5)) as ->.
  { apply nth_lookup_Some. unfold build_w0_drho, amap, amap2. lookup_unfold.
    rewrite HW, Hr, Hg. cbn [mbind option_bind fmap option_fmap option_map].
    unfold coef_C. arith_unfold.
    rewrite (Rnp_pow_lit _ 5.0 5), (Rnp_pow_lit _ 2.0 2) by (lit_unfold; simpl; lra).
    replace (Q2R 2.0) with 2 by (lit_unfold; lra).
    replace (Q2R 3.0) with 3 by (lit_unfold; lra).
    replace (Q2R 0.0093) with 0.0093 by (lit_unfold; lra). done. }
  split; [|split].
  - apply (derivable_pt_lim_locally_ext kappa_of _ r (r / 2) (r + 1)); [lra| |].
    + intros z Hz. symmetry. apply Hrho. lra.
    + by apply kappa_of_derivative.
  - apply (derivable_pt_lim_ext (fun g' => W0_of r g')).
    + intros z. symmetry. apply Hgamma.
    + by apply W0_of_derivative_gamma.
  - apply (derivable_pt_lim_locally_ext (fun r' => W0_of r' g) _ r (r / 2) (r + 1));
      [lra| |].
    + intros z Hz. symmetry. apply Hrho. lra.
    + by apply W0_of_derivative_rho.
Qed.

End KernelDerivatives.

Lemma kernel_derivatives_witness :
  derivable_pt_lim (fun r' => (compute_vv10_kernel (<[0%nat := r']> [1]) [0]).2.[0]) 1
    (build_kappa_dn (compute_vv10_kernel [1] [0]).2 [1]).[0].
Proof.
  exact (proj1 (kernel_derivatives [1] [0] 0 1 0 eq_refl eq_refl Rlt_0_1)).
Defined.

(** ** The accumulators of the inner loop, over all pairs of points *)

Section AllPairs.

Lemma pair_kernel_lookup (n m : nat)
    (l_x l_y l_z l_W0 l_kappa r_x r_y r_z r_w r_rho r_W0 r_kappa : list R)
    (phi_kernel phi_U phi_W : list R) (i : nat) :
  length l_x = n -> length l_y = n -> length l_z = n ->
  length l_W0 = n -> length l_kappa = n ->
  length phi_kernel = n -> length phi_U = n -> length phi_W = n ->
  length r_x = m -> length r_y = m -> length r_z = m -> length r_w = m ->
  length r_rho = m -> length r_W0 = m -> length r_kappa = m ->
  (i < n)%nat ->
  let phi' :=
    pair_kernel l_x l_y l_z l_W0 l_kappa r_x r_y r_z r_w r_rho r_W0 r_kappa
      (phi_kernel, phi_U, phi_W) in
  phi'.1.1.[i] = phi_kernel.[i]
    + big_sum m (PairSpec.F l_x l_y l_z l_W0 l_kappa r_x r_y r_z r_w r_rho r_W0 r_kappa i) /\
  phi'.1.2.[i] = phi_U.[i]
    - big_sum m (PairSpec.F_U l_x l_y l_z l_W0 l_kappa r_x r_y r_z r_w r_rho r_W0 r_kappa i) /\
  phi'.2.[i] = phi_W.[i]
    - big_sum m (PairSpec.F_W l_x l_y l_z l_W0 l_kappa r_x r_y r_z r_w r_rho r_W0 r_kappa i).
Proof.
  intros ? ? ? ? ? ? ? ? ? ? ? ? ? ? ? Hi phi'. subst phi'.
  unfold PairSpec.F_W, PairSpec.F_U, PairSpec.F, PairSpec.g, PairSpec.g',
    PairSpec.R2, Rminus.
  tabulate_array l_x. tabulate_array l_y. tabulate_array l_z.
  tabulate_array l_W0. tabulate_array l_kappa.
  tabulate_array r_x. tabulate_array r_y. tabulate_array r_z.
  tabulate_array r_w. tabulate_array r_rho. tabulate_array r_W0.
  tabulate_array r_kappa.
  tabulate_array phi_kernel. tabulate_array phi_U. tabulate_array phi_W.
  unfold pair_kernel, build_F_W, build_F_U, build_F_kernal, build_gp, build_g,
    distance_matrix.
  tabulate_norm. cbn [fst snd].
  rewrite !nth_tabulate by done. rewrite !np_sum_big_sum.
  assert (Hlit1 : Q2R 1.0 = 1) by (lit_unfold; lra).
  assert (Hlit15 : - Q2R 1.5 = -1.5) by (lit_unfold; lra).
  unfold square. arith_unfold.
  repeat split; apply (f_equal (Rplus _)); try apply (f_equal Ropp);
    apply big_sum_ext; intros j Hj;
    rewrite !Rnp_pow_lit_2, ?Hlit1, Hlit15; done.
Qed.

Lemma block_kernel_length (Vpot : VBase R) (b : BlockOPoints R) :
  block_shape Vpot b ->
  length (block_rho Vpot b) = length (grid_w b) /\
  length (block_W0 Vpot b) = length (grid_w b) /\
  length (block_kappa Vpot b) = length (grid_w b).
Proof.
  intros (_ & _ & _ & Hrho & Hgamma & _).
  assert (length (block_rho Vpot b) = length (grid_w b)) as Hlr.
  { unfold block_rho. rewrite length_take. lia. }
  assert (length (block_gamma Vpot b) = length (grid_w b)) as Hlg.
  { unfold block_gamma. rewrite length_take. lia. }
  split; [done|]. by apply kernel_length.
Qed.

Lemma inner_loop_lookup (Vpot : VBase R) (l : BlockOPoints R)
    (bs : list (BlockOPoints R)) (phi : list R * list R * list R) (i : nat) :
  block_shape Vpot l -> Forall (block_shape Vpot) bs ->
  length phi.1.1 = length (grid_w l) /\ length phi.1.2 = length (grid_w l) /\
    length phi.2 = length (grid_w l) ->
  (i < length (grid_w l))%nat ->
  let phi' :=
    foldl (inner_block Vpot (grid_x l) (grid_y l) (grid_z l)
             (block_W0 Vpot l) (block_kappa Vpot l)) phi bs in
  phi'.1.1.[i]
    = phi.1.1.[i]
      + Rsum ((fun r => big_sum (length (grid_w r)) (pair_F Vpot l r i)) <$> bs) /\
  phi'.1.2.[i]
    = phi.1.2.[i]
      - Rsum ((fun r => big_sum (length (grid_w r)) (pair_F_U Vpot l r i)) <$> bs) /\
  phi'.2.[i]
    = phi.2.[i]
      - Rsum ((fun r => big_sum (length (grid_w r)) (pair_F_W Vpot l r i)) <$> bs).
Proof.
  intros Hl Hbs Hphi Hi. cbv zeta. revert phi Hphi.
  destruct (block_kernel_length Vpot l Hl) as (_ & HlW & Hlk).
  pose proof Hl as (Hlx & Hly & Hlz & _).
  induction Hbs as [|r bs Hr Hbs IH]; intros phi Hphi.
  - cbn [foldl fmap list_fmap Rsum foldr]. repeat split; lra.
  - cbn [foldl fmap list_fmap Rsum foldr].
    destruct (block_kernel_length Vpot r Hr) as (Hrrho & HrW & Hrk).
    pose proof Hr as (Hrx & Hry & Hrz & _).
    assert (inner_block Vpot (grid_x l) (grid_y l) (grid_z l)
              (block_W0 Vpot l) (block_kappa Vpot l) phi r
            = pair_kernel (grid_x l) (grid_y l) (grid_z l)
                (block_W0 Vpot l) (block_kappa Vpot l)
                (grid_x r) (grid_y r) (grid_z r) (grid_w r) (block_rho Vpot r)
                (block_W0 Vpot r) (block_kappa Vpot r) phi) as Hstep.
    { unfold inner_block, block_W0, block_kappa, block_rho, block_gamma.
      by destruct (compute_vv10_kernel (take _ (RHO_A (point_values Vpot r))) _). }
    rewrite Hstep.
    destruct phi as [[pk pu] pw]. cbn [fst snd] in Hphi.
    destruct Hphi as (Hpk & Hpu & Hpw).
    pose proof (pair_kernel_lookup (length (grid_w l)) (length (grid_w r))
                  (grid_x l) (grid_y l) (grid_z l)
                  (block_W0 Vpot l) (block_kappa Vpot l)
                  (grid_x r) (grid_y r) (grid_z r) (grid_w r) (block_rho Vpot r)
                  (block_W0 Vpot r) (block_kappa Vpot r) pk pu pw i
                  Hlx Hly Hlz HlW Hlk Hpk Hpu Hpw Hrx Hry Hrz eq_refl
                  Hrrho HrW Hrk Hi) as Hpair.
    cbv zeta in Hpair. destruct Hpair as (H1 & H2 & H3).
    pose proof (pair_kernel_length (length (grid_w l))
                  (grid_x l) (grid_y l) (grid_z l)
                  (block_W0 Vpot l) (block_kappa Vpot l)
                  (grid_x r) (grid_y r) (grid_z r) (grid_w r) (block_rho Vpot r)
                  (block_W0 Vpot r) (block_kappa Vpot r) (pk, pu, pw)
                  Hlx Hly Hlz HlW Hlk (conj Hpk (conj Hpu Hpw))) as Hlen.
    cbv zeta in Hlen.
    destruct (IH _ Hlen) as (IH1 & IH2 & IH3).
    change (PairSpec.F _ _ _ _ _ _ _ _ _ _ _ _ i) with (pair_F Vpot l r i) in H1.
    change (PairSpec.F_U _ _ _ _ _ _ _ _ _ _ _ _ i) with (pair_F_U Vpot l r i) in H2.
    change (PairSpec.F_W _ _ _ _ _ _ _ _ _ _ _ _ i) with (pair_F_W Vpot l r i) in H3.
    rewrite IH1, IH2, IH3, H1, H2, H3. cbn [fst snd].
    change (foldr Rplus 0 ?k) with (Rsum k).
    repeat split; lra.
Qed.

Lemma block_phi_unfold (Vpot : VBase R) (l : BlockOPoints R) :
  block_phi Vpot l
  = foldl (inner_block Vpot (grid_x l) (grid_y l) (grid_z l)
             (block_W0 Vpot l) (block_kappa Vpot l))
      (np_zeros_like (block_rho Vpot l), np_zeros_like (block_rho Vpot l),
       np_zeros_like (block_rho Vpot l))
      (blocks Vpot).
Proof.
  unfold block_phi, block_W0, block_kappa.
  by destruct (compute_vv10_kernel _ _).
Qed.

Lemma nth_np_zeros_like (a : list R) (i : nat) : (np_zeros_like a).[i] = 0.
Proof.
  unfold np_zeros_like. destruct (decide (i < length a)%nat) as [Hi|Hi].
  - destruct (lookup_lt_is_Some_2 a i Hi) as [x Hx].
    apply nth_lookup_Some. rewrite list_lookup_fmap, Hx. cbn. arith_unfold.
    f_equal. lit_unfold. lra.
  - apply nth_overflow. rewrite length_fmap. lia.
Qed.

Lemma block_phi_lookup (Vpot : VBase R) (l : BlockOPoints R) (i : nat) :
  block_shape Vpot l -> Forall (block_shape Vpot) (blocks Vpot) ->
  (i < length (grid_w l))%nat ->
  (block_phi Vpot l).1.1.[i]
    = Rsum ((fun r => big_sum (length (grid_w r)) (pair_F Vpot l r i))
              <$> blocks Vpot) /\
  (block_phi Vpot l).1.2.[i]
    = - Rsum ((fun r => big_sum (length (grid_w r)) (pair_F_U Vpot l r i))
                <$> blocks Vpot) /\
  (block_phi Vpot l).2.[i]
    = - Rsum ((fun r => big_sum (length (grid_w r)) (pair_F_W Vpot l r i))
                <$> blocks Vpot).
Proof.
  intros Hl Hbs Hi. rewrite block_phi_unfold.
  destruct (block_kernel_length Vpot l Hl) as (Hrho & _).
  destruct (inner_loop_lookup Vpot l (blocks Vpot)
              (np_zeros_like (block_rho Vpot l), np_zeros_like (block_rho Vpot l),
               np_zeros_like (block_rho Vpot l)) i Hl Hbs) as (H1 & H2 & H3);
    [by cbn [fst snd]; unfold np_zeros_like; rewrite length_fmap|done|].
  rewrite H1, H2, H3. cbn [fst snd]. rewrite nth_np_zeros_like.
  repeat split; lra.
Qed.

(** When the inner loop is left, the accumulators of an outer block hold,
    at each of its points [i], the sums over every point [j] of every block
    of the grid: [phi_kernel[i]] the sum of [F], [phi_U[i]] minus the sum of
    [F_U], and [phi_W[i]] minus the sum of [F_W]; the outer block itself is
    among the inner blocks, the pair of a point with itself included. *)
Theorem block_phi_all_pairs (Vpot : VBase R) (l : BlockOPoints R) (i : nat) :
  l ∈ blocks Vpot -> Forall (block_shape Vpot) (blocks Vpot) ->
  (i < length (grid_w l))%nat ->
  (block_phi Vpot l).1.1.[i]
    = Rsum ((fun r => big_sum (length (grid_w r)) (pair_F Vpot l r i))
              <$> blocks Vpot) /\
  (block_phi Vpot l).1.2.[i]
    = - Rsum ((fun r => big_sum (length (grid_w r)) (pair_F_U Vpot l r i))
                <$> blocks Vpot) /\
  (block_phi Vpot l).2.[i]
    = - Rsum ((fun r => big_sum (length (grid_w r)) (pair_F_W Vpot l r i))
                <$> blocks Vpot).
Proof.
  intros Hl Hbs Hi. apply block_phi_lookup; [|done..].
  rewrite Forall_forall in Hbs. by apply Hbs.
Qed.

End AllPairs.

Lemma block_phi_all_pairs_witness :
  (block_phi he_Vpot (he_block 5)).1.1.[0]
  = Rsum ((fun r => big_sum (length (grid_w r)) (pair_F he_Vpot (he_block 5) r 0))
            <$> blocks he_Vpot).
Proof.
  refine (proj1 (block_phi_all_pairs he_Vpot (he_block 5) 0 _ _ _)).
  - right. left.
  - repeat constructor.
  - repeat constructor.
Defined.

(** ** The signs of the accumulators *)

Section Signs.

Lemma Rsum_nonpos (l : list R) : Forall (fun x => x <= 0) l -> Rsum l <= 0.
Proof.
  induction 1 as [|x l Hx _ IH]; cbn [Rsum foldr]; [lra|].
  change (foldr Rplus 0 l) with (Rsum l). lra.
Qed.

Lemma big_sum_nonpos (m : nat) (f : nat -> R) :
  (forall j, (j < m)%nat -> f j <= 0) -> big_sum m f <= 0.
Proof.
  intros Hf. apply (Rsum_nonpos (tabulate m f)). unfold tabulate.
  apply Forall_fmap, Forall_seq. intros j Hj. apply Hf. lia.
Qed.

Lemma block_kernel_pos (Vpot : VBase R) (b : BlockOPoints R) (i : nat) :
  block_shape Vpot b -> (i < length (grid_w b))%nat ->
  0 < (block_rho Vpot b).[i] ->
  0 < (block_W0 Vpot b).[i] /\ 0 < (block_kappa Vpot b).[i].
Proof.
  intros Hb Hi Hrho. pose proof Hb as (_ & _ & _ & Hlr & Hlg & _).
  destruct (block_kernel_length Vpot b Hb) as (Hr & _).
  destruct (lookup_lt_is_Some_2 (block_rho Vpot b) i) as [r Hri]; [lia|].
  destruct (lookup_lt_is_Some_2 (block_gamma Vpot b) i) as [g Hgi].
  { unfold block_gamma. rewrite length_take. lia. }
  rewrite (nth_lookup_Some _ _ _ _ Hri) in Hrho.
  destruct (kernel_lookup _ _ i r g Hri Hgi Hrho) as [HW Hk].
  unfold block_W0, block_kappa.
  rewrite (nth_lookup_Some _ _ _ _ HW), (nth_lookup_Some _ _ _ _ Hk).
  split; [by apply W0_of_pos|apply kappa_of_pos].
Qed.

Lemma pair_F_nonpos (Vpot : VBase R) (l r : BlockOPoints R) (i j : nat) :
  0 < (block_W0 Vpot l).[i] -> 0 < (block_kappa Vpot l).[i] ->
  0 < (block_W0 Vpot r).[j] -> 0 < (block_kappa Vpot r).[j] ->
  0 <= (grid_w r).[j] -> 0 <= (block_rho Vpot r).[j] ->
  pair_F Vpot l r i j <= 0 /\ pair_F_U Vpot l r i j <= 0 /\
  pair_F_W Vpot l r i j <= 0.
Proof.
  intros HlW Hlk HrW Hrk Hw Hrho.
  unfold pair_F_W, pair_F_U, pair_F, PairSpec.F_W, PairSpec.F_U, PairSpec.F.
  set (R2 := PairSpec.R2 _ _ _ _ _ _ i j).
  assert (0 <= R2) as HR2.
  { unfold R2, PairSpec.R2.
    pose proof (pow2_ge_0 ((grid_x l).[i] - (grid_x r).[j])).
    pose proof (pow2_ge_0 ((grid_y l).[i] - (grid_y r).[j])).
    pose proof (pow2_ge_0 ((grid_z l).[i] - (grid_z r).[j])). lra. }
  set (g := PairSpec.g _ _ _ _ _ _ _ _ i j).
  set (g' := PairSpec.g' _ _ _ _ _ _ _ _ i j).
  assert (0 < g) as Hg by (unfold g, PairSpec.g; fold R2; nra).
  assert (0 < g') as Hg' by (unfold g', PairSpec.g'; fold R2; nra).
  assert (0 < g * g' * (g + g')) as Hden.
  { apply Rmult_lt_0_compat; [by apply Rmult_lt_0_compat|lra]. }
  set (w := (grid_w r).[j]) in *. set (p := (block_rho Vpot r).[j]) in *.
  assert (-1.5 * w * p / (g * g' * (g + g')) <= 0) as HF.
  { pose proof (Rinv_0_lt_compat _ Hden) as Hinv. unfold Rdiv.
    assert (0 <= w * p) as Hwp by (by apply Rmult_le_pos).
    clearbody R2 g g' w p. nra. }
  assert (0 < 1 / g + 1 / (g + g')) as Hsum.
  { apply Rplus_lt_0_compat; apply Rdiv_lt_0_compat; lra. }
  set (F := -1.5 * w * p / (g * g' * (g + g'))) in *.
  set (S := 1 / g + 1 / (g + g')) in *.
  assert (F * S <= 0) as HFU by (clearbody F S; nra).
  split; [done|]. split; [done|].
  clearbody F S R2. nra.
Qed.

(** At every point of an outer block, when all weights of the grid are
    nonnegative and all its densities positive, the inner loop leaves
    [phi_kernel <= 0], [phi_U >= 0] and [phi_W >= 0]: the pairs only lower
    the non-local energy density below [beta]. *)
Theorem block_phi_signs (Vpot : VBase R) (l : BlockOPoints R) (i : nat) :
  l ∈ blocks Vpot -> Forall (block_shape Vpot) (blocks Vpot) ->
  Forall (fun r => forall j, (j < length (grid_w r))%nat ->
                     0 <= (grid_w r).[j] /\ 0 < (block_rho Vpot r).[j])
    (blocks Vpot) ->
  (i < length (grid_w l))%nat ->
  (block_phi Vpot l).1.1.[i] <= 0 /\
  0 <= (block_phi Vpot l).1.2.[i] /\
  0 <= (block_phi Vpot l).2.[i].
Proof.
  intros Hl Hshape Hpos Hi. rewrite Forall_forall in Hshape, Hpos.
  destruct (block_phi_lookup Vpot l i) as (H1 & H2 & H3);
    [by apply Hshape|by rewrite Forall_forall|done|].
  destruct (block_kernel_pos Vpot l i) as [HlW Hlk];
    [by apply Hshape|done|by apply (Hpos l Hl)|].
  assert (forall r j, r ∈ blocks Vpot -> (j < length (grid_w r))%nat ->
            pair_F Vpot l r i j <= 0 /\ pair_F_U Vpot l r i j <= 0 /\
            pair_F_W Vpot l r i j <= 0) as Hpair.
  { intros r j Hr Hj. destruct (Hpos r Hr j Hj) as [Hw Hrho].
    destruct (block_kernel_pos Vpot r j) as [HrW Hrk]; [by apply Hshape|done..|].
    apply pair_F_nonpos; [done..|lra]. }
  rewrite H1, H2, H3.
  assert (forall F : BlockOPoints R -> nat -> R,
            (forall r j, r ∈ blocks Vpot -> (j < length (grid_w r))%nat -> F r j <= 0) ->
            Rsum ((fun r => big_sum (length (grid_w r)) (F r)) <$> blocks Vpot) <= 0)
    as Hsum.
  { intros F HF. apply Rsum_nonpos, Forall_fmap, Forall_forall.
    intros r Hr. apply big_sum_nonpos. intros j Hj. by apply HF. }
  pose proof (Hsum (fun r => pair_F Vpot l r i)
                (fun r j Hr Hj => proj1 (Hpair r j Hr Hj))).
  pose proof (Hsum (fun r => pair_F_U Vpot l r i)
                (fun r j Hr Hj => proj1 (proj2 (Hpair r j Hr Hj)))).
  pose proof (Hsum (fun r => pair_F_W Vpot l r i)
                (fun r j Hr Hj => proj2 (proj2 (Hpair r j Hr Hj)))).
  cbv beta in *. repeat split; lra.
Qed.

End Signs.

Lemma block_phi_signs_witness :
  (block_phi he_Vpot (he_block 5)).1.1.[0] <= 0 /\
  0 <= (block_phi he_Vpot (he_block 5)).1.2.[0] /\
  0 <= (block_phi he_Vpot (he_block 5)).2.[0].
Proof.
  apply (block_phi_signs he_Vpot (he_block 5) 0).
  - right. left.
  - repeat constructor.
  - repeat constructor; destruct j as [|j]; cbn in *; try lra; try lia.
  - repeat constructor.
Defined.

(** ** The energy over all pairs of points *)

(** The energy that [compute_vv10] returns is the semilocal energy plus,
    summed over every point [i] of every block, the weight times the density
    times [beta] plus half the sum of [F i j] over every point [j] of every
    block. *)
Theorem compute_vv10_energy_all_pairs (D : mat R) (Vpot : VBase R) (e : R) (M : mat R) :
  compute_vv10 D Vpot = Some (e, M) ->
  Forall (block_shape Vpot) (blocks Vpot) ->
  e = Rsum (semilocal_energy Vpot <$> blocks Vpot)
      + Rsum ((fun l =>
                 big_sum (length (grid_w l))
                   (fun i =>
                      (grid_w l).[i] * (block_rho Vpot l).[i]
                      * (beta
                         + 0.5 * Rsum ((fun r =>
                                          big_sum (length (grid_w r)) (pair_F Vpot l r i))
                                         <$> blocks Vpot))))
                <$> blocks Vpot).
Proof.
  intros Hrun Hshape. unfold compute_vv10 in Hrun. rewrite outer_loop_unfold in Hrun.
  destruct (sum_back _ _ _) as [M'|]; [|done].
  cbn [mbind option_bind] in Hrun. injection Hrun as <- _.
  rewrite !foldl_Rplus. arith_unfold.
  replace (Q2R 0.0) with 0 by (lit_unfold; lra).
  rewrite !Rplus_0_l. f_equal; f_equal.
  - apply Forall_fmap_ext_1. eapply Forall_impl; [exact Hshape|].
    intros b Hb. by apply block_xc_e_sum.
  - apply Forall_fmap_ext_1. eapply Forall_impl; [exact Hshape|].
    intros b Hb. rewrite (block_nl_e_sum Vpot b Hb). unfold nonlocal_energy.
    apply big_sum_ext. intros i Hi.
    by rewrite (proj1 (block_phi_lookup Vpot b i Hb Hshape Hi)).
Qed.

Lemma compute_vv10_energy_all_pairs_witness :
  exists e M,
    compute_vv10 [[1]] he_Vpot = Some (e, M) /\
    e = Rsum (semilocal_energy he_Vpot <$> blocks he_Vpot)
        + Rsum ((fun l =>
                   big_sum (length (grid_w l))
                     (fun i =>
                        (grid_w l).[i] * (block_rho he_Vpot l).[i]
                        * (beta
                           + 0.5 * Rsum ((fun r =>
                                            big_sum (length (grid_w r))
                                              (pair_F he_Vpot l r i))
                                           <$> blocks he_Vpot))))
                  <$> blocks he_Vpot).
Proof.
  destruct (compute_vv10_defined [[1]] he_Vpot) as (e & M & Hrun).
  { repeat constructor. }
  exists e, M. split; [exact Hrun|].
  apply (compute_vv10_energy_all_pairs [[1]] he_Vpot e M Hrun).
  repeat constructor.
Defined.

(** ** The pair kernel is reciprocal *)

Section Reciprocal.
Variables l_w l_rho l_x l_y l_z l_W0 l_kappa : list R.
Variables r_w r_rho r_x r_y r_z r_W0 r_kappa : list R.
Variables n m : nat.

(** Weighted by the weight and the density of its first point, the kernel
    [F_kernal] of a pair of points is the same in both directions: what the
    point [j] of a block [r] adds to [w rho phi_kernel] at the point [i] of
    a block [l] is what [i] adds at [j] when [r] is the outer block. *)
Theorem build_F_kernal_reciprocal (i j : nat) :
  length l_w = n -> length l_rho = n -> length l_x = n -> length l_y = n ->
  length l_z = n -> length l_W0 = n -> length l_kappa = n ->
  length r_w = m -> length r_rho = m -> length r_x = m -> length r_y = m ->
  length r_z = m -> length r_W0 = m -> length r_kappa = m ->
  (i < n)%nat -> (j < m)%nat ->
  let R2_lr := distance_matrix l_x l_y l_z r_x r_y r_z in
  let F_lr :=
    build_F_kernal r_w r_rho (build_g l_W0 l_kappa R2_lr)
      (build_gp r_W0 r_kappa R2_lr) in
  let R2_rl := distance_matrix r_x r_y r_z l_x l_y l_z in
  let F_rl :=
    build_F_kernal l_w l_rho (build_g r_W0 r_kappa R2_rl)
      (build_gp l_W0 l_kappa R2_rl) in
  l_w.[i] * l_rho.[i] * getitem F_lr i j = r_w.[j] * r_rho.[j] * getitem F_rl j i.
Proof.
  intros ? ? ? ? ? ? ? ? ? ? ? ? ? ? Hi Hj. cbv zeta.
  tabulate_array l_w. tabulate_array l_rho.
  tabulate_array l_x. tabulate_array l_y. tabulate_array l_z.
  tabulate_array l_W0. tabulate_array l_kappa.
  tabulate_array r_w. tabulate_array r_rho.
  tabulate_array r_x. tabulate_array r_y. tabulate_array r_z.
  tabulate_array r_W0. tabulate_array r_kappa.
  unfold build_F_kernal, build_gp, build_g, distance_matrix.
  tabulate_norm. rewrite !getitem_tabulate2 by done.
  unfold square. arith_unfold. rewrite !Rnp_pow_lit_2.
  set (R2 := (l_x.[i] - r_x.[j]) ^ 2 + (l_y.[i] - r_y.[j]) ^ 2
             + (l_z.[i] - r_z.[j]) ^ 2).
  replace ((r_x.[j] - l_x.[i]) ^ 2 + (r_y.[j] - l_y.[i]) ^ 2
           + (r_z.[j] - l_z.[i]) ^ 2) with R2 by (unfold R2; ring).
  set (g := l_W0.[i] * R2 + l_kappa.[i]).
  set (g' := r_W0.[j] * R2 + r_kappa.[j]).
  replace (g' * g * (g' + g)) with (g * g' * (g + g')) by ring.
  subst l_w_at l_rho_at r_w_at r_rho_at. cbv beta. unfold Rdiv. ring.
Qed.

End Reciprocal.

Lemma build_F_kernal_reciprocal_witness :
  2 * 3 * getitem
            (build_F_kernal [5] [7]
               (build_g [1] [1] (distance_matrix [0] [0] [0] [0] [0] [4]))
               (build_gp [2] [1] (distance_matrix [0] [0] [0] [0] [0] [4]))) 0 0
  = 5 * 7 * getitem
              (build_F_kernal [2] [3]
                 (build_g [2] [1] (distance_matrix [0] [0] [4] [0] [0] [0]))
                 (build_gp [1] [1] (distance_matrix [0] [0] [4] [0] [0] [0]))) 0 0.
Proof.
  exact (build_F_kernal_reciprocal [2] [3] [0] [0] [0] [1] [1]
           [5] [7] [0] [0] [4] [2] [1] 1 1 0 0
           eq_refl eq_refl eq_refl eq_refl eq_refl eq_refl eq_refl
           eq_refl eq_refl eq_refl eq_refl eq_refl eq_refl eq_refl
           (Nat.lt_0_succ 0) (Nat.lt_0_succ 0)).
Defined.

(** ** The matrix in binary64 *)

Lemma compute_vv10_symmetric_binary64_witness :
  exists e M,
    @compute_vv10 _ (binary64 (fun x _ => x)) [[b64_of_Z 1]] b64_unit_Vpot
    = Some (e, M) /\
    @np_transpose _ (binary64 (fun x _ => x)) M = M.
Proof.
  destruct (@compute_vv10_defined _ (binary64 (fun x _ => x))
              [[b64_of_Z 1]] b64_unit_Vpot) as (e & M & Hrun).
  { repeat constructor. }
  exists e, M. split; [exact Hrun|].
  exact (compute_vv10_symmetric_binary64 (fun x _ => x)
           [[b64_of_Z 1]] b64_unit_Vpot e M Hrun).
Defined.

(** ** The projection on the basis functions *)

Section Projection.

Lemma einsum_entry_swap (A B : mat R) (u v : list R) (a b : nat) :
  np_sum (zip_with (fun Au vB => nth a Au.1 0 * Au.2 * vB.1 * nth b vB.2 0)
            (zip A u) (zip v B))
  = np_sum (zip_with (fun Bu vA => nth b Bu.1 0 * Bu.2 * vA.1 * nth a vA.2 0)
              (zip B u) (zip v A)).
Proof.
  revert B u v.
  induction A as [|ra A IH]; intros [|rb B] [|x u] [|y v]; try done.
  cbn [zip zip_with np_sum foldr fst snd]. arith_unfold.
  change (foldr Rplus (Q2R 0) ?k) with (np_sum k).
  rewrite (IH B u v). ring.
Qed.

(** The transpose of [np.einsum('pb,p,p,pa->ab', A, u, v, B)] is the same
    contraction with [A] and [B] exchanged, in exact arithmetic; the LDA
    term, which contracts [phi] with itself, is a symmetric matrix, and the
    GGA terms, which contract [phi] with a gradient of [phi], are not in
    general. *)
Theorem einsum_pb_p_p_pa_transpose (n : nat) (A B : mat R) (u v : list R) :
  np_transpose (einsum_pb_p_p_pa n n A u v B) = einsum_pb_p_p_pa n n B u v A.
Proof.
  change (einsum_pb_p_p_pa n n A u v B)
    with (tabulate2 n n (fun a b =>
            np_sum (zip_with
                      (fun Au vB => nth b Au.1 (lit 0) * Au.2 * vB.1
                                    * nth a vB.2 (lit 0))%A
                      (zip A u) (zip v B)))).
  rewrite np_transpose_tabulate2.
  apply tabulate_ext. intros a Ha. apply tabulate_ext. intros b Hb.
  arith_unfold. replace (Q2R 0) with 0 by (lit_unfold; lra).
  apply einsum_entry_swap.
Qed.

End Projection.

(** ** The kernel evaluator works point by point *)

Section Pointwise.
Context {T : Type} `{Arith T}.

(** Slicing the density and the gradient to their first [n] points before
    the kernel evaluator gives the first [n] points of what it returns for
    the whole arrays, in any arithmetic: the entries of the tables behind
    the extent of a block have no effect on the points of the block. *)
Theorem compute_vv10_kernel_take (rho gamma : vec T) (n : nat) :
  compute_vv10_kernel (take n rho) (take n gamma)
  = (take n (compute_vv10_kernel rho gamma).1,
     take n (compute_vv10_kernel rho gamma).2).
Proof.
  unfold compute_vv10_kernel, amap, amap2. cbn [fst snd].
  by rewrite <- !fmap_take, !zip_with_take, <- !fmap_take, !zip_with_take.
Qed.

End Pointwise.

(** ** The kernel parameters as the notebook states them *)

Lemma Rpower_Rinv (x z : R) : 0 < x -> Rpower (/ x) z = / Rpower x z.
Proof.
  intros Hx. unfold Rpower. rewrite ln_Rinv by done.
  rewrite <- exp_Ropp. f_equal. ring.
Qed.

(** At a point of positive density the kernel evaluator returns the
    quantities of the notebook's introduction:
    [W0 = sqrt (wg2 + wp2 / 3)] with [wg2 = C (gamma / rho^2)^2] and
    [wp2 = 4 pi rho], and [kappa = b (3 pi / 2) (rho / (9 pi))^(1/6)]. *)
Theorem compute_vv10_kernel_documented (rho gamma : list R) (i : nat) (r g : R) :
  rho !! i = Some r -> gamma !! i = Some g -> 0 < r ->
  let wg2 := 0.0093 * (g / r ^ 2) ^ 2 in
  let wp2 := 4 * PI * r in
  (compute_vv10_kernel rho gamma).1 !! i = Some (sqrt (wg2 + wp2 / 3)) /\
  (compute_vv10_kernel rho gamma).2 !! i
    = Some (5.9 * (3 * PI / 2) * Rpower (r / (9 * PI)) (1 / 6)).
Proof.
  intros Hr Hg Hpos wg2 wp2.
  destruct (kernel_lookup rho gamma i r g Hr Hg Hpos) as [-> ->].
  pose proof PI_RGT_0 as Hpi. unfold W0_of, kappa_of, wg2, wp2. split.
  - do 2 f_equal. lra.
  - f_equal. change (r / (9 * PI)) with (r * / (9 * PI)).
    rewrite <- (Rpower_mult_distr r (/ (9 * PI))), Rpower_Rinv;
      [|lra|done|apply Rinv_0_lt_compat; lra].
    pose proof (Rpower_gt_0 (9 * PI) (1 / 6)). field. lra.
Qed.

Lemma compute_vv10_kernel_documented_witness :
  (compute_vv10_kernel [1] [0]).2 !! 0%nat
  = Some (5.9 * (3 * PI / 2) * Rpower (1 / (9 * PI)) (1 / 6)).
Proof.
  exact (proj2 (compute_vv10_kernel_documented [1] [0] 0 1 0
                  eq_refl eq_refl Rlt_0_1)).
Defined.

(** ** The objects of a call: the tables, and what is read of the density *)

Section ObjectsMore.
Context {T : Type} `{Arith T}.

Lemma py_for_outer_block_tables (Vpot : VBase T) Varr bs M st st' (s s' : PyState T) :
  arrays s !! Varr = Some M ->
  py_for (py_outer_block Vpot Varr) st bs s = Some (st', s') ->
  tables s'
  = match last bs with
    | Some b => (point_values Vpot b, basis_values Vpot b)
    | None => tables s
    end.
Proof.
  revert M st s. induction bs as [|l bs IH]; intros M [xc_e vv10_e] s HVarr Hrun.
  - cbn in Hrun. by injection Hrun as _ <-.
  - cbn [py_for] in Hrun.
    rewrite py_bind_run, (py_outer_block_run Vpot Varr M) in Hrun by done.
    destruct (outer_block Vpot (xc_e, vv10_e, M) l) as [[[xc_e' vv10_e'] M']|];
      [|done].
    apply (IH M') in Hrun; [|cbn [arrays]; apply lookup_insert_eq].
    rewrite Hrun, last_cons. by destruct (last bs).
Qed.

(** A call that returns leaves in [points_func] the tables of the last
    block of the grid, as the last [compute_points] of the loop computed
    them; over a grid without blocks the tables stay as they were. *)
Theorem compute_vv10_tables (D : positive) (Vpot : VBase T) (s s' : PyState T)
    (d : mat T) (e : T) (Varr : positive) :
  arrays s !! D = Some d ->
  py_compute_vv10 D Vpot s = Some ((e, Varr), s') ->
  tables s'
  = match last (blocks Vpot) with
    | Some b => (point_values Vpot b, basis_values Vpot b)
    | None => tables s
    end.
Proof.
  intros HD. unfold py_compute_vv10. cbv zeta.
  rewrite py_bind_run, (read_array_run D d s HD).
  rewrite py_bind_run, new_array_run.
  set (Varr0 := fresh (dom (arrays s))).
  assert (Varr0 ∉ dom (arrays s)) as HVarr by apply is_fresh.
  assert (Varr0 <> D) as HVD.
  { intros ->. apply HVarr. apply elem_of_dom. by eexists. }
  set (s0 := {| arrays := <[Varr0 := _]> _; tables := tables s |}).
  assert (arrays s0 !! D = Some d) as HD0.
  { subst s0. cbn [arrays]. by rewrite lookup_insert_ne. }
  rewrite py_bind_run, (read_array_run D d s0 HD0).
  rewrite py_bind_run, new_array_run.
  set (tD := fresh (dom (arrays s0))).
  assert (tD ∉ dom (arrays s0)) as HtD by apply is_fresh.
  subst s0. cbn [arrays tables] in *. rewrite dom_insert_L in HtD.
  set (s1 := {| arrays := <[tD := _]> _; tables := tables s |}).
  assert (arrays s1 !! Varr0 = Some (np_zeros (length d) (length d))) as HV1.
  { subst s1. cbn [arrays]. rewrite lookup_insert_ne by set_solver.
    by rewrite lookup_insert_eq. }
  rewrite py_bind_run.
  destruct (py_for _ _ _ s1) as [[[xc_e vv10_e] s2]|] eqn:Hloop; [|done].
  intros [= _ _ <-].
  by rewrite (py_for_outer_block_tables Vpot Varr0 (blocks Vpot) _ _ _ s1 s2 HV1 Hloop).
Qed.

Lemma compute_vv10_length (D D' : mat T) (Vpot : VBase T) :
  length D = length D' -> compute_vv10 D Vpot = compute_vv10 D' Vpot.
Proof. unfold compute_vv10, outer_loop. by intros ->. Qed.

(** Of the density matrix a call uses the number of rows only: from any
    two stores that hold, at [D], matrices of the same number of rows, the
    calls return the same energy and matrices of the same entries (the
    copy [tD = 2 D] is built and not read). *)
Theorem compute_vv10_density_shape_only (D : positive) (Vpot : VBase T)
    (s1 s2 s1' : PyState T) (d1 d2 : mat T) (e : T) (Varr : positive) :
  arrays s1 !! D = Some d1 -> arrays s2 !! D = Some d2 ->
  length d1 = length d2 ->
  py_compute_vv10 D Vpot s1 = Some ((e, Varr), s1') ->
  exists Varr2 s2',
    py_compute_vv10 D Vpot s2 = Some ((e, Varr2), s2') /\
    arrays s2' !! Varr2 = arrays s1' !! Varr.
Proof.
  intros HD1 HD2 Hlen Hrun.
  pose proof (py_compute_vv10_run D Vpot s1 d1 HD1) as Hrun1.
  pose proof (py_compute_vv10_run D Vpot s2 d2 HD2) as Hrun2.
  rewrite <- (compute_vv10_length d1 d2 Vpot Hlen) in Hrun2.
  destruct (compute_vv10 d1 Vpot) as [[e' M]|]; [|congruence].
  destruct Hrun1 as (Varr1 & t1 & Hrun1 & _ & HM1 & _).
  rewrite Hrun in Hrun1. injection Hrun1 as -> -> ->.
  destruct Hrun2 as (Varr2 & t2 & Hrun2 & _ & HM2 & _).
  exists Varr2, t2. split; [done|]. by rewrite HM1, HM2.
Qed.

End ObjectsMore.

Lemma compute_vv10_tables_witness :
  exists e Varr s',
    py_compute_vv10 1%positive he_Vpot he_state = Some ((e, Varr), s') /\
    tables s' = (point_values he_Vpot (he_block 5), basis_values he_Vpot (he_block 5)).
Proof.
  assert (arrays he_state !! 1%positive = Some [[1]]) as HD
    by apply lookup_singleton_eq.
  pose proof (py_compute_vv10_run 1%positive he_Vpot he_state [[1]] HD) as Hrun.
  destruct (compute_vv10_defined [[1]] he_Vpot) as (e & M & Hvalue).
  { repeat constructor. }
  rewrite Hvalue in Hrun. destruct Hrun as (Varr & s' & Hrun & _).
  exists e, Varr, s'. split; [exact Hrun|].
  exact (compute_vv10_tables 1%positive he_Vpot he_state s' [[1]] e Varr HD Hrun).
Defined.

Lemma compute_vv10_density_shape_only_witness :
  exists e Varr s1' Varr2 s2',
    py_compute_vv10 1%positive he_Vpot he_state = Some ((e, Varr), s1') /\
    py_compute_vv10 1%positive he_Vpot
      {| arrays := {[ 1%positive := [[7]] ]}; tables := tables he_state |}
    = Some ((e, Varr2), s2') /\
    arrays s2' !! Varr2 = arrays s1' !! Varr.
Proof.
  assert (arrays he_state !! 1%positive = Some [[1]]) as HD
    by apply lookup_singleton_eq.
  pose proof (py_compute_vv10_run 1%positive he_Vpot he_state [[1]] HD) as Hrun.
  destruct (compute_vv10_defined [[1]] he_Vpot) as (e & M & Hvalue).
  { repeat constructor. }
  rewrite Hvalue in Hrun. destruct Hrun as (Varr & s1' & Hrun & _).
  destruct (compute_vv10_density_shape_only 1%positive he_Vpot he_state
              {| arrays := {[ 1%positive := [[7]] ]}; tables := tables he_state |}
              s1' [[1]] [[7]] e Varr HD (lookup_singleton_eq _ _) eq_refl Hrun)
    as (Varr2 & s2' & Hrun2 & HM).
  exists e, Varr, s1', Varr2, s2'.
  split; [exact Hrun|]. split; [exact Hrun2|exact HM].
Defined.

(** ** A point of zero density poisons the energy *)

Section NanAbsorbing.
Context {T : Type} `{Arith T}.
Variable nan : T.
Hypothesis add_nan_l : forall x, add nan x = nan.
Hypothesis add_nan_r : forall x, add x nan = nan.
Hypothesis mul_nan_l : forall x, mul nan x = nan.
Hypothesis mul_nan_r : forall x, mul x nan = nan.
Hypothesis div_nan_r : forall x, div x nan = nan.

Lemma np_sum_nan (a : vec T) (i : nat) : a !! i = Some nan -> np_sum a = nan.
Proof using add_nan_l add_nan_r.
  unfold np_sum. revert i. induction a as [|x a IH]; intros [|i] Hi; try done.
  - cbn in Hi. injection Hi as ->. cbn. apply add_nan_l.
  - cbn in Hi. cbn. rewrite (IH i Hi). apply add_nan_r.
Qed.

Lemma foldl_add_nan_from {B} (f : B -> T) (bs : list B) :
  foldl (fun e b => add e (f b)) nan bs = nan.
Proof using add_nan_l.
  induction bs as [|b bs IH]; [done|]. cbn [foldl]. by rewrite add_nan_l.
Qed.

Lemma foldl_add_nan {B} (f : B -> T) (e0 : T) (bs : list B) (l : B) :
  l ∈ bs -> f l = nan -> foldl (fun e b => add e (f b)) e0 bs = nan.
Proof using add_nan_l add_nan_r.
  intros Hl Hf. revert e0. induction bs as [|b bs IH]; intros e0.
  - by apply elem_of_nil in Hl.
  - cbn [foldl]. apply elem_of_cons in Hl as [<-|Hl]; [|by apply IH].
    rewrite Hf, add_nan_r. apply foldl_add_nan_from.
Qed.

Lemma kernel_lengths (rho gamma : vec T) (n : nat) :
  length rho = n -> length gamma = n ->
  length (compute_vv10_kernel rho gamma).1 = n /\
  length (compute_vv10_kernel rho gamma).2 = n.
Proof using Type.
  intros Hr Hg. unfold compute_vv10_kernel, amap, amap2. cbn [fst snd].
  rewrite !length_fmap, !length_zip_with, !length_fmap, !length_zip_with. lia.
Qed.

Lemma pair_kernel_phi_kernel
    (l_x l_y l_z l_W0 l_kappa r_x r_y r_z r_w r_rho r_W0 r_kappa : vec T)
    (phi : vec T * vec T * vec T) :
  (pair_kernel l_x l_y l_z l_W0 l_kappa r_x r_y r_z r_w r_rho r_W0 r_kappa phi).1.1
  = amap2 add phi.1.1
      (np_sum_axis1
         (build_F_kernal r_w r_rho
            (build_g l_W0 l_kappa (distance_matrix l_x l_y l_z r_x r_y r_z))
            (build_gp r_W0 r_kappa (distance_matrix l_x l_y l_z r_x r_y r_z)))).
Proof using Type. by destruct phi as [[pk pu] pw]. Qed.

Lemma build_F_kernal_rows (n : nat)
    (l_x l_y l_z l_W0 l_kappa r_x r_y r_z r_w r_rho r_W0 r_kappa : vec T) :
  length l_x = n -> length l_y = n -> length l_z = n ->
  length l_W0 = n -> length l_kappa = n ->
  length
    (build_F_kernal r_w r_rho
       (build_g l_W0 l_kappa (distance_matrix l_x l_y l_z r_x r_y r_z))
       (build_gp r_W0 r_kappa (distance_matrix l_x l_y l_z r_x r_y r_z))) = n.
Proof using Type.
  intros. unfold build_F_kernal, build_gp, build_g, distance_matrix, mmap2, mmap,
    op_col, col_op, op_row, row_op, outer.
  repeat (rewrite length_fmap || rewrite length_zip_with). lia.
Qed.

(* an accumulator entry that is NaN stays NaN *)
Lemma pair_kernel_keeps_nan (n i : nat)
    (l_x l_y l_z l_W0 l_kappa r_x r_y r_z r_w r_rho r_W0 r_kappa : vec T)
    (phi : vec T * vec T * vec T) :
  length l_x = n -> length l_y = n -> length l_z = n ->
  length l_W0 = n -> length l_kappa = n -> length phi.1.1 = n ->
  let phi' :=
    pair_kernel l_x l_y l_z l_W0 l_kappa r_x r_y r_z r_w r_rho r_W0 r_kappa phi in
  length phi'.1.1 = n /\ (phi.1.1 !! i = Some nan -> phi'.1.1 !! i = Some nan).
Proof using add_nan_l.
  intros Hx Hy Hz HW Hk Hphi. cbv zeta. rewrite pair_kernel_phi_kernel.
  pose proof (build_F_kernal_rows n l_x l_y l_z l_W0 l_kappa
                r_x r_y r_z r_w r_rho r_W0 r_kappa Hx Hy Hz HW Hk) as Hrows.
  unfold amap2, np_sum_axis1. split.
  - rewrite length_zip_with, length_fmap. lia.
  - intros Hi. pose proof (lookup_lt_Some _ _ _ Hi) as Hlt.
    destruct (lookup_lt_is_Some_2
                (build_F_kernal r_w r_rho
                   (build_g l_W0 l_kappa (distance_matrix l_x l_y l_z r_x r_y r_z))
                   (build_gp r_W0 r_kappa (distance_matrix l_x l_y l_z r_x r_y r_z)))
                i) as [row Hrow]; [lia|].
    rewrite lookup_zip_with, Hi, list_lookup_fmap, Hrow. cbn.
    by rewrite add_nan_l.
Qed.

(* the pair (i, j) makes the accumulator NaN when [l_W0[i] * R2[i, j]] is *)
Lemma pair_kernel_makes_nan (n m i j : nat)
    (l_x l_y l_z l_W0 l_kappa r_x r_y r_z r_w r_rho r_W0 r_kappa : vec T)
    (phi : vec T * vec T * vec T) :
  length l_x = n -> length l_y = n -> length l_z = n ->
  length l_W0 = n -> length l_kappa = n -> length phi.1.1 = n ->
  length r_x = m -> length r_y = m -> length r_z = m -> length r_w = m ->
  length r_rho = m -> length r_W0 = m -> length r_kappa = m ->
  (i < n)%nat -> (j < m)%nat ->
  mul (nth i l_W0 nan)
    (add (add (square (sub (nth i l_x nan) (nth j r_x nan)))
            (square (sub (nth i l_y nan) (nth j r_y nan))))
       (square (sub (nth i l_z nan) (nth j r_z nan)))) = nan ->
  (pair_kernel l_x l_y l_z l_W0 l_kappa r_x r_y r_z r_w r_rho r_W0 r_kappa phi).1.1
    !! i = Some nan.
Proof using add_nan_l add_nan_r mul_nan_l div_nan_r.
  intros Hx Hy Hz HW Hk Hphi Hrx Hry Hrz Hrw Hrrho HrW Hrk Hi Hj Hnan.
  rewrite pair_kernel_phi_kernel.
  destruct (lookup_lt_is_Some_2 phi.1.1 i) as [p Hp]; [lia|].
  unfold amap2. rewrite lookup_zip_with, Hp. cbn [mbind option_bind].
  set (lx := fun i => nth i l_x nan) in *. set (ly := fun i => nth i l_y nan) in *.
  set (lz := fun i => nth i l_z nan) in *. set (lW := fun i => nth i l_W0 nan) in *.
  set (rx := fun i => nth i r_x nan) in *. set (ry := fun i => nth i r_y nan) in *.
  set (rz := fun i => nth i r_z nan) in *.
  change (mul (lW i)
            (add (add (square (sub (lx i) (rx j))) (square (sub (ly i) (ry j))))
               (square (sub (lz i) (rz j)))) = nan) in Hnan.
  rewrite (tabulate_nth l_x n nan Hx), (tabulate_nth l_y n nan Hy),
    (tabulate_nth l_z n nan Hz), (tabulate_nth l_W0 n nan HW),
    (tabulate_nth l_kappa n nan Hk), (tabulate_nth r_x m nan Hrx),
    (tabulate_nth r_y m nan Hry), (tabulate_nth r_z m nan Hrz),
    (tabulate_nth r_w m nan Hrw), (tabulate_nth r_rho m nan Hrrho),
    (tabulate_nth r_W0 m nan HrW), (tabulate_nth r_kappa m nan Hrk).
  unfold build_F_kernal, build_gp, build_g, distance_matrix.
  tabulate_norm. rewrite lookup_tabulate by done. cbn [mbind option_bind].
  f_equal. rewrite (np_sum_nan _ j); [apply add_nan_r|].
  rewrite lookup_tabulate by done. f_equal.
  fold (lx i) (ly i) (lz i) (lW i) (rx j) (ry j) (rz j).
  by rewrite Hnan, add_nan_l, !mul_nan_l, div_nan_r.
Qed.

Section Block.
Variables (Vpot : VBase T) (l : BlockOPoints T) (i : nat).
Hypothesis Hshape : block_shape Vpot l.
Hypothesis Hi : (i < length (grid_w l))%nat.
Hypothesis Hnan :
  mul (nth i (compute_vv10_kernel (block_rho Vpot l) (block_gamma Vpot l)).1 nan)
    (add (add (square (sub (nth i (grid_x l) nan) (nth i (grid_x l) nan)))
            (square (sub (nth i (grid_y l) nan) (nth i (grid_y l) nan))))
       (square (sub (nth i (grid_z l) nan) (nth i (grid_z l) nan)))) = nan.

Lemma block_lengths :
  length (block_rho Vpot l) = length (grid_w l) /\
  length (block_gamma Vpot l) = length (grid_w l).
Proof using All.
  destruct Hshape as (_ & _ & _ & Hrho & Hgamma & _).
  unfold block_rho, block_gamma. rewrite !length_take. lia.
Qed.

Lemma inner_loop_nan (bs : list (BlockOPoints T)) (phi : vec T * vec T * vec T) :
  length phi.1.1 = length (grid_w l) ->
  l ∈ bs \/ phi.1.1 !! i = Some nan ->
  (foldl
     (inner_block Vpot (grid_x l) (grid_y l) (grid_z l)
        (compute_vv10_kernel (block_rho Vpot l) (block_gamma Vpot l)).1
        (compute_vv10_kernel (block_rho Vpot l) (block_gamma Vpot l)).2)
     phi bs).1.1 !! i = Some nan.
Proof using All.
  destruct block_lengths as [Hlr Hlg].
  destruct (kernel_lengths _ _ _ Hlr Hlg) as [HlW Hlk].
  pose proof Hshape as (Hx & Hy & Hz & _).
  revert phi. induction bs as [|r bs IH]; intros phi Hphi Hcase.
  - destruct Hcase as [Hin|Hphi_nan]; [by apply elem_of_nil in Hin|done].
  - cbn [foldl].
    assert (inner_block Vpot (grid_x l) (grid_y l) (grid_z l)
              (compute_vv10_kernel (block_rho Vpot l) (block_gamma Vpot l)).1
              (compute_vv10_kernel (block_rho Vpot l) (block_gamma Vpot l)).2 phi r
            = pair_kernel (grid_x l) (grid_y l) (grid_z l)
                (compute_vv10_kernel (block_rho Vpot l) (block_gamma Vpot l)).1
                (compute_vv10_kernel (block_rho Vpot l) (block_gamma Vpot l)).2
                (grid_x r) (grid_y r) (grid_z r) (grid_w r) (block_rho Vpot r)
                (compute_vv10_kernel (block_rho Vpot r) (block_gamma Vpot r)).1
                (compute_vv10_kernel (block_rho Vpot r) (block_gamma Vpot r)).2
                phi) as ->.
    { unfold inner_block, block_rho, block_gamma.
      by destruct (compute_vv10_kernel (take _ (RHO_A (point_values Vpot r))) _). }
    destruct (pair_kernel_keeps_nan (length (grid_w l)) i
                (grid_x l) (grid_y l) (grid_z l)
                (compute_vv10_kernel (block_rho Vpot l) (block_gamma Vpot l)).1
                (compute_vv10_kernel (block_rho Vpot l) (block_gamma Vpot l)).2
                (grid_x r) (grid_y r) (grid_z r) (grid_w r) (block_rho Vpot r)
                (compute_vv10_kernel (block_rho Vpot r) (block_gamma Vpot r)).1
                (compute_vv10_kernel (block_rho Vpot r) (block_gamma Vpot r)).2
                phi Hx Hy Hz HlW Hlk Hphi) as [Hlen Hkeep].
    apply IH; [done|].
    destruct Hcase as [Hin|Hphi_nan]; [|right; by apply Hkeep].
    apply elem_of_cons in Hin as [<-|Hin]; [|by left].
    right.
    apply (pair_kernel_makes_nan (length (grid_w l)) (length (grid_w l)) i i);
      done.
Qed.

Lemma block_nl_e_nan : l ∈ blocks Vpot -> block_nl_e Vpot l = nan.
Proof using All.
  intros Hl. destruct block_lengths as [Hlr Hlg].
  unfold block_nl_e, block_vv10_e.
  assert ((block_phi Vpot l).1.1 !! i = Some nan) as Hphi.
  { unfold block_phi. cbv zeta.
    pose proof (inner_loop_nan (blocks Vpot)
                  (np_zeros_like (block_rho Vpot l), np_zeros_like (block_rho Vpot l),
                   np_zeros_like (block_rho Vpot l))) as Hloop.
    destruct (compute_vv10_kernel (block_rho Vpot l) (block_gamma Vpot l))
      as [l_W0 l_kappa].
    apply Hloop; [|by left].
    cbn [fst snd]. unfold np_zeros_like. by rewrite length_fmap. }
  destruct (lookup_lt_is_Some_2 (grid_w l) i Hi) as [w Hw].
  destruct (lookup_lt_is_Some_2 (block_rho Vpot l) i) as [p Hp]; [lia|].
  apply (np_sum_nan _ i). unfold amap2, amap.
  rewrite !lookup_zip_with, !list_lookup_fmap, Hw, Hp, Hphi. cbn.
  by rewrite mul_nan_r, add_nan_r, mul_nan_r.
Qed.

Lemma compute_vv10_energy_nan (D : mat T) (e : T) (M : mat T) :
  l ∈ blocks Vpot -> compute_vv10 D Vpot = Some (e, M) -> e = nan.
Proof using All.
  intros Hl. unfold compute_vv10. rewrite outer_loop_unfold.
  destruct (sum_back _ _ _) as [M'|]; [|done].
  cbn [mbind option_bind]. intros [= <- _].
  rewrite (foldl_add_nan (block_nl_e Vpot) _ (blocks Vpot) l Hl (block_nl_e_nan Hl)).
  apply add_nan_r.
Qed.

End Block.
End NanAbsorbing.

Section ZeroDensityEnergy.
Variable libm_pow : spec_float -> spec_float -> spec_float.

Lemma b64_add_nan_l x : SFadd b64_prec b64_emax S754_nan x = S754_nan.
Proof. done. Qed.
Lemma b64_add_nan_r x : SFadd b64_prec b64_emax x S754_nan = S754_nan.
Proof. by destruct x. Qed.
Lemma b64_mul_nan_l x : SFmul b64_prec b64_emax S754_nan x = S754_nan.
Proof. done. Qed.
Lemma b64_mul_nan_r x : SFmul b64_prec b64_emax x S754_nan = S754_nan.
Proof. by destruct x. Qed.
Lemma b64_div_nan_r x : SFdiv b64_prec b64_emax x S754_nan = S754_nan.
Proof. by destruct x. Qed.

Lemma b64_square (d : spec_float) :
  @square _ (binary64 libm_pow) d = SFmul b64_prec b64_emax d d.
Proof. done. Qed.

(* x - x is a zero, or NaN when x is not finite *)
Lemma b64_sub_diag (x : spec_float) :
  SFsub b64_prec b64_emax x x = S754_nan \/
  SFsub b64_prec b64_emax x x = S754_zero false.
Proof.
  destruct x as [s|s| |s m e]; [by right; destruct s|by left; destruct s|by left|].
  right. unfold SFsub. rewrite Z.min_id. unfold shl_align.
  by rewrite Z.sub_diag.
Qed.

(* the squared distance of a point from itself *)
Lemma b64_distance_diag (x y z : spec_float) :
  let R2 :=
    SFadd b64_prec b64_emax
      (SFadd b64_prec b64_emax
         (@square _ (binary64 libm_pow) (SFsub b64_prec b64_emax x x))
         (@square _ (binary64 libm_pow) (SFsub b64_prec b64_emax y y)))
      (@square _ (binary64 libm_pow) (SFsub b64_prec b64_emax z z)) in
  R2 = S754_nan \/ R2 = S754_zero false.
Proof.
  cbv zeta. rewrite !b64_square.
  destruct (b64_sub_diag x) as [-> | ->], (b64_sub_diag y) as [-> | ->],
    (b64_sub_diag z) as [-> | ->]; by vm_compute; auto.
Qed.

(* W0 at a point of zero density *)
Lemma b64_zero_density_W0 (rho gamma : list spec_float) (i : nat) (s : bool)
    (g : spec_float) :
  rho !! i = Some (S754_zero s) -> gamma !! i = Some g ->
  let w0 := nth i (@compute_vv10_kernel _ (binary64 libm_pow) rho gamma).1 S754_nan in
  w0 = S754_nan \/ w0 = S754_infinity false.
Proof.
  intros Hr Hg. cbv zeta.
  assert ((@compute_vv10_kernel _ (binary64 libm_pow) rho gamma).1 !! i
          = Some match g with
                 | S754_zero _ | S754_nan => S754_nan
                 | _ => S754_infinity false
                 end) as HW.
  { unfold compute_vv10_kernel, amap, amap2. cbn [fst snd].
    lookup_unfold. rewrite Hr, Hg.
    cbn [mbind option_bind fmap option_fmap option_map]. f_equal.
    destruct g as [sg|sg| |sg mg eg], s; try destruct sg; by vm_compute. }
  rewrite (nth_lookup_Some _ _ _ _ HW). destruct g; auto.
Qed.

(** In binary64, one grid point of density zero (either sign) makes the
    energy that [compute_vv10] returns NaN, whatever the rest of the grid,
    the functional and the [pow] of the C library are: the point's [W0] is
    infinite or NaN, its squared distance from itself is zero or NaN, their
    product in [g] is NaN, and the NaN goes through [F_kernal], the row sum,
    [phi_kernel], the energy sum of the block and the sum over the blocks. *)
Theorem compute_vv10_zero_density_energy
    (D : mat spec_float) (Vpot : VBase spec_float) (l : BlockOPoints spec_float)
    (i : nat) (s : bool) (e : spec_float) (M : mat spec_float) :
  l ∈ blocks Vpot ->
  @block_shape _ Vpot l ->
  @block_rho _ Vpot l !! i = Some (S754_zero s) ->
  @compute_vv10 _ (binary64 libm_pow) D Vpot = Some (e, M) ->
  e = S754_nan.
Proof.
  intros Hl Hshape Hrho Hrun.
  assert (i < length (grid_w l))%nat as Hi.
  { apply lookup_lt_Some in Hrho. unfold block_rho in Hrho.
    rewrite length_take in Hrho. lia. }
  assert (length (block_gamma Vpot l) = length (grid_w l)) as Hlg.
  { destruct Hshape as (_ & _ & _ & _ & Hgamma & _).
    unfold block_gamma. rewrite length_take. lia. }
  destruct (lookup_lt_is_Some_2 (block_gamma Vpot l) i) as [g Hg]; [lia|].
  refine (@compute_vv10_energy_nan _ (binary64 libm_pow) S754_nan
            b64_add_nan_l b64_add_nan_r b64_mul_nan_l b64_mul_nan_r b64_div_nan_r
            Vpot l i Hshape Hi _ D e M Hl Hrun).
  pose proof (b64_zero_density_W0 _ _ i s g Hrho Hg) as HW. cbv zeta in HW.
  pose proof (b64_distance_diag (nth i (grid_x l) S754_nan)
                (nth i (grid_y l) S754_nan) (nth i (grid_z l) S754_nan)) as HR.
  cbv zeta in HR. cbn [add sub mul binary64].
  destruct HW as [-> | ->], HR as [-> | ->]; done.
Qed.

End ZeroDensityEnergy.

Lemma compute_vv10_zero_density_energy_witness :
  exists M,
    @compute_vv10 _ (binary64 (fun x _ => x)) [[b64_of_Z 1]] b64_empty_Vpot
    = Some (S754_nan, M).
Proof.
  destruct (@compute_vv10_defined _ (binary64 (fun x _ => x))
              [[b64_of_Z 1]] b64_empty_Vpot) as (e & M & Hrun).
  { repeat constructor. }
  exists M. rewrite Hrun. do 2 f_equal.
  apply (compute_vv10_zero_density_energy (fun x _ => x) [[b64_of_Z 1]]
           b64_empty_Vpot b64_unit_block 0 false e M).
  - left.
  - repeat constructor.
  - reflexivity.
  - exact Hrun.
Defined.

(** ** The entries of the matrix of a block *)

Section BlockMatrix.

Lemma big_sum_plus (n : nat) (f g : nat -> R) :
  big_sum n f + big_sum n g = big_sum n (fun p => f p + g p).
Proof.
  unfold big_sum, tabulate. induction (seq 0 n) as [|p ps IH]; cbn; [lra|].
  rewrite <- IH. lra.
Qed.

Lemma slice2_tabulate (n m : nat) (A : mat R) :
  (n <= length A)%nat ->
  slice2 n m A = tabulate n (fun p => take m (nth p A [])).
Proof.
  intros Hn. unfold slice2.
  rewrite (tabulate_nth (take n A) n []) by (rewrite length_take; lia).
  rewrite fmap_tabulate. apply tabulate_ext. intros p Hp. f_equal.
  rewrite !nth_lookup. by rewrite lookup_take_lt.
Qed.

Lemma nth_take_lt (m b : nat) (row : list R) :
  (b < m)%nat -> nth b (take m row) 0 = nth b row 0.
Proof. intros Hb. rewrite !nth_lookup. by rewrite lookup_take_lt. Qed.

Lemma einsum_sum (n na nb : nat) (A B : mat R) (u v : list R) (a b : nat) :
  length u = n -> length v = n -> (n <= length A)%nat -> (n <= length B)%nat ->
  (a < na)%nat -> (b < nb)%nat ->
  getitem (einsum_pb_p_p_pa na nb (slice2 n nb A) u v (slice2 n na B)) a b
  = big_sum n (fun p => getitem A p b * u.[p] * v.[p] * getitem B p a).
Proof.
  intros Hu Hv HA HB Ha Hb.
  change (einsum_pb_p_p_pa na nb (slice2 n nb A) u v (slice2 n na B))
    with (tabulate2 na nb (fun a b =>
            np_sum (zip_with
                      (fun Au vB => nth b Au.1 (lit 0) * Au.2 * vB.1
                                    * nth a vB.2 (lit 0))%A
                      (zip (slice2 n nb A) u) (zip v (slice2 n na B))))).
  rewrite getitem_tabulate2 by done.
  rewrite !slice2_tabulate by done.
  rewrite (tabulate_nth u n 0 Hu) at 1. rewrite (tabulate_nth v n 0 Hv) at 1.
  rewrite !zip_with_tabulate, np_sum_big_sum.
  apply big_sum_ext. intros p Hp. cbn [fst snd]. unfold getitem. arith_unfold.
  replace (Q2R 0) with 0 by (lit_unfold; lra).
  by rewrite !nth_take_lt by done.
Qed.

Lemma perturb_derivatives_length (n : nat)
    (l_rho l_gamma l_W0 l_kappa phi_kernel phi_U phi_W v_rho v_gamma : list R) :
  length l_rho = n -> length l_gamma = n -> length l_W0 = n ->
  length l_kappa = n -> length phi_kernel = n -> length phi_U = n ->
  length phi_W = n -> length v_rho = n -> length v_gamma = n ->
  let v' :=
    perturb_derivatives l_rho l_gamma l_W0 l_kappa phi_kernel phi_U phi_W
      v_rho v_gamma in
  length v'.1 = n /\ length v'.2 = n.
Proof.
  intros Hr Hg HW Hk Hpk Hpu Hpw Hvr Hvg v'. subst v'.
  unfold perturb_derivatives, build_kappa_dn, build_w0_dgamma, build_w0_drho,
    amap2, amap. cbn [fst snd].
  repeat (rewrite length_fmap || rewrite length_zip_with).
  rewrite Hr, Hg, HW, Hk, Hpk, Hpu, Hpw, Hvr, Hvg.
  by rewrite !Nat.min_id.
Qed.

Lemma block_v_length (Vpot : VBase R) (l : BlockOPoints R) :
  block_shape Vpot l -> projection_shape Vpot l ->
  length (block_v Vpot l).1 = length (grid_w l) /\
  length (block_v Vpot l).2 = length (grid_w l).
Proof.
  intros Hshape (HVr & HVg & _).
  destruct (block_phi_length Vpot l Hshape) as (Hrho & Hpk & Hpu & Hpw).
  destruct (block_kernel_length Vpot l Hshape) as (_ & HW & Hk).
  pose proof Hshape as (_ & _ & _ & _ & Hg & _).
  apply perturb_derivatives_length; try done.
  - unfold block_gamma. rewrite length_take. lia.
  - rewrite length_take. lia.
  - rewrite length_take. lia.
Qed.

Lemma block_Vtmp_unfold (Vpot : VBase R) (l : BlockOPoints R) :
  block_Vtmp Vpot l
  = let l_w := grid_w l in
    let n := length l_w in
    let nf := length (functions_local_to_global l) in
    let phi := slice2 n nf (PHI (basis_values Vpot l)) in
    let tmp_grid := amap2 mul (amap (mul (lit 2.0)) l_w) (block_v Vpot l).2 in
    mmap2 add
      (mmap2 add
         (mmap2 add
            (einsum_pb_p_p_pa nf nf phi (block_v Vpot l).1 l_w phi)
            (einsum_pb_p_p_pa nf nf phi tmp_grid
               (take n (RHO_AX (point_values Vpot l)))
               (slice2 n nf (PHI_X (basis_values Vpot l)))))
         (einsum_pb_p_p_pa nf nf phi tmp_grid
            (take n (RHO_AY (point_values Vpot l)))
            (slice2 n nf (PHI_Y (basis_values Vpot l)))))
      (einsum_pb_p_p_pa nf nf phi tmp_grid
         (take n (RHO_AZ (point_values Vpot l)))
         (slice2 n nf (PHI_Z (basis_values Vpot l)))).
Proof.
  unfold block_Vtmp, block_v, block_W0, block_kappa. cbv zeta.
  destruct (compute_vv10_kernel _ _) as [l_W0 l_kappa].
  destruct (block_phi _ _) as [[phi_kernel phi_U] phi_W]. cbn [fst snd].
  by destruct (perturb_derivatives _ _ _ _ _ _ _ _ _) as [v_rho v_gamma].
Qed.

(** The matrix [Vtmp + Vtmp.T] that a block adds to the potential matrix
    has, at the basis functions [a] and [b] of the block, the entry
    [sum_p w_p (2 v_rho_p phi_pa phi_pb
                + 2 v_gamma_p grad rho_p . grad (phi_a phi_b)_p)]
    over the points [p] of the block, with [v_rho] and [v_gamma] as the
    perturbation leaves them: the halving of [v_rho] and the added transpose
    cancel in the LDA term, and the transpose completes the gradient of the
    product of two basis functions in the GGA term. *)
Theorem block_Vsym_entries (Vpot : VBase R) (l : BlockOPoints R) (a b : nat) :
  block_shape Vpot l -> projection_shape Vpot l ->
  (a < length (functions_local_to_global l))%nat ->
  (b < length (functions_local_to_global l))%nat ->
  let w := grid_w l in
  let v_rho := (block_v Vpot l).1 in
  let v_gamma := (block_v Vpot l).2 in
  let rho_x := RHO_AX (point_values Vpot l) in
  let rho_y := RHO_AY (point_values Vpot l) in
  let rho_z := RHO_AZ (point_values Vpot l) in
  let phi := getitem (PHI (basis_values Vpot l)) in
  let phi_x := getitem (PHI_X (basis_values Vpot l)) in
  let phi_y := getitem (PHI_Y (basis_values Vpot l)) in
  let phi_z := getitem (PHI_Z (basis_values Vpot l)) in
  getitem (block_Vsym Vpot l) a b
  = big_sum (length (grid_w l))
      (fun p =>
         w.[p] * (2 * v_rho.[p] * phi p a * phi p b
                  + 2 * v_gamma.[p]
                    * (rho_x.[p] * (phi p b * phi_x p a + phi p a * phi_x p b)
                       + rho_y.[p] * (phi p b * phi_y p a + phi p a * phi_y p b)
                       + rho_z.[p] * (phi p b * phi_z p a + phi p a * phi_z p b)))).
Proof.
  intros Hshape Hproj Ha Hb. cbv zeta.
  destruct (block_v_length Vpot l Hshape Hproj) as [Hvr Hvg].
  destruct Hproj as (_ & _ & Hrx & Hry & Hrz & Hp & Hpx & Hpy & Hpz).
  set (n := length (grid_w l)) in *.
  set (nf := length (functions_local_to_global l)) in *.
  assert (forall (u v : list R) (B : mat R) (a b : nat),
            length u = n -> length v = n -> (n <= length B)%nat ->
            (a < nf)%nat -> (b < nf)%nat ->
            getitem
              (einsum_pb_p_p_pa nf nf (slice2 n nf (PHI (basis_values Vpot l)))
                 u v (slice2 n nf B)) a b
            = big_sum n (fun p =>
                getitem (PHI (basis_values Vpot l)) p b * u.[p] * v.[p]
                * getitem B p a)) as Hein.
  { intros u v B a' b' Hu Hv HB Ha' Hb'. by apply (einsum_sum n). }
  assert (length (amap2 mul (amap (mul (lit 2.0)) (grid_w l)) (block_v Vpot l).2) = n)
    as Htg.
  { unfold amap2, amap. rewrite length_zip_with, length_fmap. lia. }
  assert (forall p, (p < n)%nat ->
            (amap2 mul (amap (mul (lit 2.0)) (grid_w l)) (block_v Vpot l).2).[p]
            = 2 * (grid_w l).[p] * (block_v Vpot l).2.[p]) as Htgp.
  { intros p Hp'.
    destruct (lookup_lt_is_Some_2 (grid_w l) p) as [w Hw]; [done|].
    destruct (lookup_lt_is_Some_2 (block_v Vpot l).2 p) as [g Hg]; [lia|].
    rewrite (nth_lookup_Some _ _ _ _ Hw), (nth_lookup_Some _ _ _ _ Hg).
    apply nth_lookup_Some. unfold amap2, amap.
    rewrite lookup_zip_with, list_lookup_fmap, Hw, Hg. cbn. arith_unfold.
    f_equal. lit_unfold. lra. }
  assert (forall (t : list R) p, (p < n)%nat -> (take n t).[p] = t.[p]) as Htake.
  { intros t p Hp'. rewrite !nth_lookup. by rewrite lookup_take_lt. }
  unfold block_Vsym. rewrite block_Vtmp_unfold. cbv zeta. fold n nf.
  set (E1 := einsum_pb_p_p_pa nf nf _ (block_v Vpot l).1 _ _).
  set (E2 := einsum_pb_p_p_pa nf nf _ _ (take n (RHO_AX _)) _).
  set (E3 := einsum_pb_p_p_pa nf nf _ _ (take n (RHO_AY _)) _).
  set (E4 := einsum_pb_p_p_pa nf nf _ _ (take n (RHO_AZ _)) _).
  assert (forall E, (exists A u v B, E = einsum_pb_p_p_pa nf nf A u v B) ->
            E = tabulate2 nf nf (getitem E)) as Htab.
  { intros E (A & u & v & B & ->).
    destruct (einsum_tabulate2 nf nf A u v B) as [f ->].
    apply tabulate_ext. intros i Hi. apply tabulate_ext. intros j Hj.
    by rewrite getitem_tabulate2. }
  rewrite (Htab E1), (Htab E2), (Htab E3), (Htab E4) by (by repeat eexists).
  rewrite !mmap2_tabulate2, np_transpose_tabulate2, mmap2_tabulate2.
  rewrite getitem_tabulate2 by done.
  subst E1 E2 E3 E4.
  rewrite !Hein by (done || rewrite length_take; lia).
  arith_unfold. rewrite !big_sum_plus.
  apply big_sum_ext. intros p Hp'.
  rewrite !Htgp, !Htake by done. ring.
Qed.

End BlockMatrix.

Lemma block_Vsym_entries_witness :
  getitem (block_Vsym he_Vpot (he_block 5)) 0 0
  = big_sum 1
      (fun p =>
         (grid_w (he_block 5)).[p]
         * (2 * (block_v he_Vpot (he_block 5)).1.[p]
            * getitem (PHI he_basis_values) p 0 * getitem (PHI he_basis_values) p 0
            + 2 * (block_v he_Vpot (he_block 5)).2.[p]
              * ((RHO_AX he_point_values).[p]
                 * (getitem (PHI he_basis_values) p 0 * getitem (PHI_X he_basis_values) p 0
                    + getitem (PHI he_basis_values) p 0 * getitem (PHI_X he_basis_values) p 0)
                 + (RHO_AY he_point_values).[p]
                   * (getitem (PHI he_basis_values) p 0 * getitem (PHI_Y he_basis_values) p 0
                      + getitem (PHI he_basis_values) p 0 * getitem (PHI_Y he_basis_values) p 0)
                 + (RHO_AZ he_point_values).[p]
                   * (getitem (PHI he_basis_values) p 0 * getitem (PHI_Z he_basis_values) p 0
                      + getitem (PHI he_basis_values) p 0 * getitem (PHI_Z he_basis_values) p 0)))).
Proof.
  apply (block_Vsym_entries he_Vpot (he_block 5) 0 0); repeat constructor.
Defined.
